(** * Miami-Dade climate-resilience dashboard: the census pipeline of App.jsx

    A shallow embedding of the numeric and geometric helpers of
    [src/src/App.jsx] (value parser, coordinate normaliser, side-table
    loader, feature classifier, range statistics, colour expressions and
    the ray-casting containment test), with the properties stated about
    them.

    Numbers are IEEE 754 binary64 values (Rocq's primitive [float]), strings
    are sequences of code units below 256 ([string]), and a JavaScript
    object used as a dictionary is a [gmap] over its own string keys. The
    side table is read and written under keys that come from a file, so
    what it inherits from [Object.prototype] is modelled too: the inherited
    members a read can return, and the accessor [__proto__] that takes a
    write. *)

From Stdlib Require Import ZArith List Ascii String DecimalString Floats Bool Lia Reals Lra.
From stdpp Require Import gmap strings list.

#[local] Set Warnings "-inexact-float,-register-all".

Local Open Scope Z_scope.

(** ** JavaScript values and built-ins used by the source *)

Module JS.

(** Scalar values: what a property of a feature holds. [Builtin name] is the
    object that every plain object inherits under [name] from
    [Object.prototype]: a native function, or [Object.prototype] itself for
    [__proto__]. *)
Inductive Scalar :=
  | Undefined
  | Null
  | Bool (b : bool)
  | Num (n : float)
  | Str (s : string)
  | Builtin (name : string).

(** Nested arrays of scalars: coordinate arrays and style expressions. *)
Inductive Json :=
  | JVal (v : Scalar)
  | JArr (l : list Json).

(** [Number.isFinite] on a number. *)
Definition isFiniteNum (n : float) : bool := PrimFloat.is_finite n.

(** [Number.isFinite(value)]: no coercion, false for non-numbers. *)
Definition Number_isFinite (v : Scalar) : bool :=
  match v with
  | Num n => isFiniteNum n
  | _ => false
  end.

(** [isNaN] on a number. *)
Definition isNaN (n : float) : bool := PrimFloat.is_nan n.

(** [Math.abs]. *)
Definition Math_abs (n : float) : float := PrimFloat.abs n.

(** JavaScript's [a > b] on numbers. *)
Definition gt (a b : float) : bool := PrimFloat.ltb b a.

(** JavaScript's [a < b] on numbers. *)
Definition lt (a b : float) : bool := PrimFloat.ltb a b.

(** Truthiness ([ToBoolean]). *)
Definition truthy (v : Scalar) : bool :=
  match v with
  | Undefined | Null => false
  | Bool b => b
  | Num n => negb (PrimFloat.is_zero n || PrimFloat.is_nan n)
  | Str s => negb (String.eqb s "")
  | Builtin _ => true
  end.

(** Truthiness of a possibly nested value: an array is an object. *)
Definition truthy_json (j : Json) : bool :=
  match j with
  | JVal v => truthy v
  | JArr _ => true
  end.

(** [v === null || v === undefined]. *)
Definition nullish (v : Scalar) : bool :=
  match v with
  | Undefined | Null => true
  | _ => false
  end.

(** [a ?? b]. *)
Definition coalesce (a b : Scalar) : Scalar := if nullish a then b else a.

(** [a || b]. *)
Definition or_else (a b : Scalar) : Scalar := if truthy a then a else b.

(** *** Characters *)

Definition code (c : ascii) : N := N_of_ascii c.

Definition is_digit (c : ascii) : bool := (48 <=? code c)%N && (code c <=? 57)%N.

Definition digit_val (c : ascii) : Z := Z.of_N (code c) - 48.

(** White space and line terminators among the code units below 256:
    TAB, LF, VT, FF, CR, SPACE and NO-BREAK SPACE. *)
Definition is_space (c : ascii) : bool :=
  let n := code c in
  ((9 <=? n)%N && (n <=? 13)%N) || (n =? 32)%N || (n =? 160)%N.

Definition quote : ascii := "034"%char.
Definition comma : ascii := ","%char.
Definition newline : ascii := "010"%char.

(** *** Strings *)

Fixpoint trimStart (s : string) : string :=
  match s with
  | String c r => if is_space c then trimStart r else s
  | EmptyString => EmptyString
  end.

(** Drops trailing white space: a character is kept when something that is
    not white space follows it or it is not white space itself. *)
Fixpoint trimEnd (s : string) : string :=
  match s with
  | EmptyString => EmptyString
  | String c r =>
      match trimEnd r with
      | EmptyString => if is_space c then EmptyString else String c EmptyString
      | r' => String c r'
      end
  end.

(** [String.prototype.trim]. *)
Definition trim (s : string) : string := trimEnd (trimStart s).

(** [s.startsWith(p)], with the remainder. *)
Fixpoint strip_prefix (p s : string) : option string :=
  match p, s with
  | EmptyString, _ => Some s
  | String a p', String b s' => if Ascii.eqb a b then strip_prefix p' s' else None
  | String _ _, EmptyString => None
  end.

(** [s.replace(pat, '')] with a string pattern: the first occurrence of
    [pat] is removed, the rest is kept. *)
Fixpoint replace_first_empty (pat s : string) : string :=
  match strip_prefix pat s with
  | Some r => r
  | None =>
      match s with
      | EmptyString => EmptyString
      | String c r => String c (replace_first_empty pat r)
      end
  end.

(** [s.split(sep)] for a one-character separator. *)
Fixpoint split_on (sep : ascii) (s : string) : list string :=
  match s with
  | EmptyString => [EmptyString]
  | String c r =>
      if Ascii.eqb c sep then EmptyString :: split_on sep r
      else match split_on sep r with
           | x :: xs => String c x :: xs
           | [] => [String c EmptyString]
           end
  end.

(** [s.replace(/[^...]/g, '')]: keeps the characters that satisfy [keep]. *)
Fixpoint filter_chars (keep : ascii -> bool) (s : string) : string :=
  match s with
  | EmptyString => EmptyString
  | String c r => if keep c then String c (filter_chars keep r) else filter_chars keep r
  end.

(** The longest run of characters satisfying [p], and what follows. *)
Fixpoint span_chars (p : ascii -> bool) (s : string) : string * string :=
  match s with
  | String c r =>
      if p c then let '(a, b) := span_chars p r in (String c a, b) else (EmptyString, s)
  | EmptyString => (EmptyString, EmptyString)
  end.

(** *** Decimal literals and their Number values *)

(** The integer written by a run of digits in a radix, most significant
    first, after the digits already read. *)
Fixpoint digits_value (radix : Z) (acc : Z) (s : string) : Z :=
  match s with
  | EmptyString => acc
  | String c r => digits_value radix (radix * acc + digit_val c) r
  end.

(** The binary64 value nearest to [m * 10^e] for [m > 0] (ties to even), with
    the sign [neg]; overflow gives an infinity, underflow a zero. *)
Definition round_decimal (neg : bool) (m e : Z) : float :=
  let sgn (x : Z) := if neg then Z.opp x else x in
  if m =? 0 then (if neg then neg_zero else zero)
  else if 400 <? e then (if neg then neg_infinity else infinity)
  else if e + Z.log2 m <? -1200 then (if neg then neg_zero else zero)
  else if 0 <=? e then
    SF2Prim (binary_normalize prec emax (sgn (m * 10 ^ e)) 0 neg)
  else
    let d := 10 ^ (- e) in
    let s := Z.max 0 (Z.log2 d - Z.log2 m + 70) in
    let q := (m * 2 ^ s) / d in
    let r := (m * 2 ^ s) mod d in
    let sticky := if r =? 0 then 0 else 1 in
    SF2Prim (binary_normalize prec emax (sgn (2 * q + sticky)) (- s - 1) neg).

(** A scanned [StrDecimalLiteral]. *)
Inductive DecLit :=
  | DInfinity (neg : bool)
  | DFinite (neg : bool) (m : Z) (e : Z).

Definition DecLit_value (d : DecLit) : float :=
  match d with
  | DInfinity neg => if neg then neg_infinity else infinity
  | DFinite neg m e => round_decimal neg m e
  end.

(** An optional sign. *)
Definition scan_sign (s : string) : bool * string :=
  match s with
  | String "+" r => (false, r)
  | String "-" r => (true, r)
  | _ => (false, s)
  end.

(** An optional [ExponentPart]: [e] or [E], an optional sign and at least one
    digit. Without the digits the exponent part is not there at all. *)
Definition scan_exponent (s : string) : Z * string :=
  match s with
  | String c r =>
      if Ascii.eqb c "e" || Ascii.eqb c "E" then
        let '(neg, r1) := scan_sign r in
        let '(ds, r2) := span_chars is_digit r1 in
        match ds with
        | EmptyString => (0, s)
        | _ => ((if neg then - digits_value 10 0 ds else digits_value 10 0 ds), r2)
        end
      else (0, s)
  | EmptyString => (0, s)
  end.

(** The longest prefix of [s] that is a [StrDecimalLiteral], and the rest. *)
Definition scan_decimal (s : string) : option (DecLit * string) :=
  let '(neg, s1) := scan_sign s in
  match strip_prefix "Infinity" s1 with
  | Some r => Some (DInfinity neg, r)
  | None =>
      let '(ip, s2) := span_chars is_digit s1 in
      let '(fp, s3, dotted) :=
        match s2 with
        | String "." r =>
            let '(fp, s3) := span_chars is_digit r in (fp, s3, true)
        | _ => (EmptyString, s2, false)
        end in
      match ip, fp with
      | EmptyString, EmptyString => None
      | _, _ =>
          let '(ex, s4) := scan_exponent s3 in
          let m := digits_value 10 (digits_value 10 0 ip) fp in
          Some (DFinite neg m (ex - Z.of_nat (String.length fp)), s4)
      end
  end.

Definition hex_digit_val (c : ascii) : option Z :=
  let n := code c in
  if is_digit c then Some (digit_val c)
  else if (97 <=? n)%N && (n <=? 102)%N then Some (Z.of_N n - 87)
  else if (65 <=? n)%N && (n <=? 70)%N then Some (Z.of_N n - 55)
  else None.

(** The digits of a [NonDecimalIntegerLiteral] after its prefix. *)
Fixpoint radix_value (radix : Z) (acc : Z) (s : string) : option Z :=
  match s with
  | EmptyString => Some acc
  | String c r =>
      match hex_digit_val c with
      | Some d => if d <? radix then radix_value radix (radix * acc + d) r else None
      | None => None
      end
  end.

Definition scan_non_decimal (s : string) : option float :=
  match s with
  | String "0" (String c (String d r)) =>
      let digits := String d r in
      let radix :=
        if Ascii.eqb c "x" || Ascii.eqb c "X" then Some 16
        else if Ascii.eqb c "o" || Ascii.eqb c "O" then Some 8
        else if Ascii.eqb c "b" || Ascii.eqb c "B" then Some 2
        else None in
      match radix with
      | Some rx =>
          match radix_value rx 0 digits with
          | Some v => Some (SF2Prim (binary_normalize prec emax v 0 false))
          | None => None
          end
      | None => None
      end
  | _ => None
  end.

(** [Number(s)] on a string ([StringToNumber]): white space is trimmed, the
    empty string is [+0], and anything that is not a numeric literal as a
    whole is [NaN]. *)
Definition StringToNumber (s : string) : float :=
  let t := trim s in
  match t with
  | EmptyString => zero
  | _ =>
      match scan_non_decimal t with
      | Some v => v
      | None =>
          match scan_decimal t with
          | Some (d, EmptyString) => DecLit_value d
          | _ => nan
          end
      end
  end.

(** [parseFloat(s)] on a string: leading white space is skipped and the
    longest prefix that is a decimal literal is read; [NaN] without one. *)
Definition parseFloat (s : string) : float :=
  match scan_decimal (trimStart s) with
  | Some (d, _) => DecLit_value d
  | None => nan
  end.

(** *** Number to string *)

(** The decimal digits of a non-negative integer. *)
Definition digits_of (z : Z) : string := NilZero.string_of_uint (N.to_uint (Z.to_N z)).

Fixpoint zeros (n : nat) : string :=
  match n with
  | O => EmptyString
  | S k => String "0" (zeros k)
  end.

Fixpoint take_chars (n : nat) (s : string) : string :=
  match n, s with
  | S k, String c r => String c (take_chars k r)
  | _, _ => EmptyString
  end.

Fixpoint drop_chars (n : nat) (s : string) : string :=
  match n, s with
  | S k, String _ r => drop_chars k r
  | _, _ => s
  end.

Section ShortestDigits.
(** The positive finite number [x = num / den]. *)
Variables (x : float) (num den : Z).

(** [10^p <= x]. *)
Definition pow10_le (p : Z) : bool :=
  if 0 <=? p then 10 ^ p * den <=? num else den <=? num * 10 ^ (- p).

(** The [n] with [10^(n-1) <= x < 10^n], searched around an estimate from
    the binary logarithm. *)
Definition decimal_exponent : Z :=
  let est := ((Z.log2 num - Z.log2 den) * 30103) / 100000 in
  let p := if pow10_le (est + 2) then est + 2
           else if pow10_le (est + 1) then est + 1
           else if pow10_le est then est
           else if pow10_le (est - 1) then est - 1
           else est - 2 in
  p + 1.

(** [floor (x / 10^scale)]. *)
Definition scaled_floor (scale : Z) : Z :=
  if 0 <=? scale then num / (den * 10 ^ scale) else (num * 10 ^ (- scale)) / den.

(** The distance from [s * 10^scale] to [x], in a unit fixed by [scale]. *)
Definition scaled_error (scale s : Z) : Z :=
  if 0 <=? scale then Z.abs (s * 10 ^ scale * den - num)
  else Z.abs (s * den - num * 10 ^ (- scale)).

(** [s * 10^scale] has the Number value [x]. *)
Definition reads_back (scale s : Z) : bool :=
  PrimFloat.eqb (round_decimal false s scale) x.

(** The digit string [s] with the fewest digits [k], from [k] up, and the
    exponent [n]: the candidates with [k] digits are the two integers
    around [x / 10^(n-k)], the closer one wins and, on a tie, the even one. *)
Fixpoint shortest_digits (fuel : nat) (n k : Z) : Z * Z * Z :=
  let scale := n - k in
  let lo := scaled_floor scale in
  let hi := lo + 1 in
  let pick (s : Z) := if s =? 10 ^ k then (10 ^ (k - 1), k, n + 1) else (s, k, n) in
  match fuel with
  | O => pick lo
  | S fuel' =>
      match reads_back scale lo, reads_back scale hi with
      | true, true =>
          if scaled_error scale lo <? scaled_error scale hi then pick lo
          else if scaled_error scale hi <? scaled_error scale lo then pick hi
          else if Z.even lo then pick lo else pick hi
      | true, false => pick lo
      | false, true => pick hi
      | false, false => shortest_digits fuel' n (k + 1)
      end
  end.
End ShortestDigits.

(** [Number::toString] in radix 10 for a positive finite [m * 2^e]. *)
Definition positive_toString (x : float) (m e : Z) : string :=
  let '(num, den) := if 0 <=? e then (m * 2 ^ e, 1) else (m, 2 ^ (- e)) in
  let '(s, k, n) := shortest_digits x num den 17 (decimal_exponent num den) 1 in
  let ds := digits_of s in
  let exponent (d : Z) :=
    let sign := if 0 <=? d then "+"%string else "-"%string in
    ("e" ++ sign ++ digits_of (Z.abs d))%string in
  if (k <=? n) && (n <=? 21) then (ds ++ zeros (Z.to_nat (n - k)))%string
  else if (0 <? n) && (n <=? 21) then
    (take_chars (Z.to_nat n) ds ++ "." ++ drop_chars (Z.to_nat n) ds)%string
  else if (-6 <? n) && (n <=? 0) then ("0." ++ zeros (Z.to_nat (- n)) ++ ds)%string
  else if k =? 1 then (ds ++ exponent (n - 1))%string
  else (take_chars 1 ds ++ "." ++ drop_chars 1 ds ++ exponent (n - 1))%string.

(** [Number::toString(x)]. *)
Definition Number_toString (x : float) : string :=
  match Prim2SF x with
  | S754_nan => "NaN"
  | S754_zero _ => "0"
  | S754_infinity neg => if neg then "-Infinity" else "Infinity"
  | S754_finite neg m e =>
      let body := positive_toString (PrimFloat.abs x) (Zpos m) e in
      if neg then String "-" body else body
  end.

(** The names of the members of [Object.prototype]. *)
Definition objectPrototypeNames : list string :=
  ["constructor"; "hasOwnProperty"; "isPrototypeOf"; "propertyIsEnumerable";
   "toLocaleString"; "toString"; "valueOf"; "__proto__";
   "__defineGetter__"; "__defineSetter__"; "__lookupGetter__"; "__lookupSetter__"].

(** [key in Object.prototype]. *)
Definition inherited (key : string) : bool :=
  existsb (String.eqb key) objectPrototypeNames.

(** [String(v)] on an inherited member: [Object.prototype] is an ordinary
    object; the text of a native function is left to the engine within the
    [NativeFunction] syntax, and is given here as V8 prints it. *)
Definition Builtin_toString (name : string) : string :=
  if String.eqb name "__proto__" then "[object Object]"
  else
    let f := if String.eqb name "constructor" then "Object"%string else name in
    ("function " ++ f ++ "() { [native code] }")%string.

(** [String(v)] on a scalar. *)
Definition ToString (v : Scalar) : string :=
  match v with
  | Undefined => "undefined"
  | Null => "null"
  | Bool b => if b then "true" else "false"
  | Num n => Number_toString n
  | Str s => s
  | Builtin name => Builtin_toString name
  end.

(** The Number value of an array index. *)
Definition Num_of_nat (i : nat) : float :=
  SF2Prim (binary_normalize prec emax (Z.of_nat i) 0 false).

End JS.

(** ** The data model of the census pipeline *)

Module App.
Import JS.

(** A GeoJSON geometry: its [coordinates] member ([JVal Undefined] when the
    member is absent) and its other members. *)
Record Geometry := {
  coordinates : Json;
  geometry_rest : gmap string Json
}.

(** A GeoJSON feature: [feature_id] is [Undefined] when the feature declares
    no id, [geometry] and [properties] are [None] when null or absent. *)
Record Feature := {
  feature_id : Scalar;
  geometry : option Geometry;
  properties : option (gmap string Scalar);
  feature_rest : gmap string Json
}.

Record FeatureCollection := {
  features : list Feature;
  collection_rest : gmap string Json
}.

(** [obj[key]] on a property bag. *)
Definition get_property (obj : gmap string Scalar) (key : string) : Scalar :=
  match obj !! key with
  | Some v => v
  | None => Undefined
  end.

(** ** Value parser *)

(** The characters that [/[^0-9eE.+-]/g] leaves in place. *)
Definition numeric_char (c : ascii) : bool :=
  is_digit c || Ascii.eqb c "e" || Ascii.eqb c "E" || Ascii.eqb c "."
  || Ascii.eqb c "+" || Ascii.eqb c "-".

Definition is_number (v : Scalar) : bool :=
  match v with
  | Num _ => true
  | _ => false
  end.

Definition parseNumericValue (value : Scalar) : Scalar :=
  if nullish value then Null
  else if is_number value && Number_isFinite value then value
  else
    let cleaned := filter_chars numeric_char (ToString value) in
    let parsed := StringToNumber cleaned in
    if isFiniteNum parsed then Num parsed else Null.

(** ** Coordinate normaliser *)

(** [Math.exp] and [Math.atan] are approximated by the host as it sees fit;
    the normaliser is stated over any host. *)
Record MathHost := {
  Math_exp : float -> float;
  Math_atan : float -> float
}.

Definition Math_PI : float := 3.141592653589793%float.

Section Normaliser.
Variable host : MathHost.

Definition toWgs84Coordinate (x y : float) : Json :=
  let originShift := 20037508.34%float in
  let lon := ((x / originShift) * 180)%float in
  let lat := ((y / originShift) * 180)%float in
  let lat :=
    ((180 / Math_PI)
     * (2 * Math_atan host (Math_exp host ((lat * Math_PI) / 180)) - Math_PI / 2))%float in
  JArr [JVal (Num lon); JVal (Num lat)].

Fixpoint transformToWgs84 (coords : Json) : Json :=
  match coords with
  | JVal _ => coords
  | JArr l =>
      match l with
      | JVal (Num x) :: JVal (Num y) :: _ => toWgs84Coordinate x y
      | _ => JArr (List.map transformToWgs84 l)
      end
  end.

(** The arrays [walkCoordinates] hands to its callback, in call order. *)
Fixpoint traverse (coords : Json) : list Json :=
  match coords with
  | JVal _ => []
  | JArr l =>
      match l with
      | JVal (Num _) :: JVal (Num _) :: _ => [coords]
      | _ => List.flat_map traverse l
      end
  end.

Definition walkCoordinates (geometry : option Geometry) : list Json :=
  match geometry with
  | None => []
  | Some g => if truthy_json (coordinates g) then traverse (coordinates g) else []
  end.

(** The search loop for [firstCoord]: features without geometry are
    skipped, and the loop stops at the first feature whose walk calls back. *)
Fixpoint firstCoord (fs : list Feature) : option Json :=
  match fs with
  | [] => None
  | feature :: rest =>
      match geometry feature with
      | None => firstCoord rest
      | Some g =>
          match walkCoordinates (Some g) with
          | coord :: _ => Some coord
          | [] => firstCoord rest
          end
      end
  end.

(** [coord[i]] as a number; [firstCoord] always starts with two numbers. *)
Definition component (coord : Json) (i : nat) : float :=
  match coord with
  | JArr l =>
      match nth_error l i with
      | Some (JVal (Num n)) => n
      | _ => nan
      end
  | JVal _ => nan
  end.

Definition needsReprojection (coord : Json) : bool :=
  gt (Math_abs (component coord 0)) 180 || gt (Math_abs (component coord 1)) 90.

Definition reprojectFeature (feature : Feature) : Feature :=
  match geometry feature with
  | None => feature
  | Some g =>
      {| feature_id := feature_id feature;
         geometry := Some {| coordinates := transformToWgs84 (coordinates g);
                             geometry_rest := geometry_rest g |};
         properties := properties feature;
         feature_rest := feature_rest feature |}
  end.

Definition reprojectFeatureCollectionIfNeeded (fc : FeatureCollection)
  : FeatureCollection :=
  match features fc with
  | [] => fc
  | _ :: _ =>
      match firstCoord (features fc) with
      | None => fc
      | Some coord =>
          if negb (needsReprojection coord) then fc
          else {| features := List.map reprojectFeature (features fc);
                  collection_rest := collection_rest fc |}
      end
  end.
End Normaliser.

(** ** Range statistics *)

(** [Math.min] of two numbers: [NaN] wins, and [-0] is below [+0]. *)
Definition Math_min2 (a b : float) : float :=
  if PrimFloat.is_nan a || PrimFloat.is_nan b then nan
  else if (a <? b)%float then a
  else if (b <? a)%float then b
  else if get_sign a then a else b.

(** [Math.max] of two numbers: [NaN] wins, and [+0] is above [-0]. *)
Definition Math_max2 (a b : float) : float :=
  if PrimFloat.is_nan a || PrimFloat.is_nan b then nan
  else if (a <? b)%float then b
  else if (b <? a)%float then a
  else if get_sign a then b else a.

(** [Math.min(...values)] and [Math.max(...values)]. *)
Definition Math_min (values : list float) : float := fold_left Math_min2 values infinity.
Definition Math_max (values : list float) : float := fold_left Math_max2 values neg_infinity.

(** [{ min, mid, max }]; [None] stands for [null]. *)
Record RangeStats := {
  stat_min : option float;
  stat_mid : option float;
  stat_max : option float
}.

Definition getRangeStats (values : list float) : RangeStats :=
  match values with
  | [] => {| stat_min := None; stat_mid := None; stat_max := None |}
  | _ :: _ =>
      let min := Math_min values in
      let max := Math_max values in
      let mid := (min + (max - min) / 2)%float in
      {| stat_min := Some min; stat_mid := Some mid; stat_max := Some max |}
  end.

(** ** Ray casting *)

(** The vertices are pairs [[x, y]]; the indices [i] and [j] of the loop are
    always within the array. *)
Definition isPointInDistrict (point : float * float)
    (districtCoords : list (float * float)) : bool :=
  let '(lng, lat) := point in
  let len := length districtCoords in
  fst (fold_left
         (fun (st : bool * nat) (i : nat) =>
            let '(inside, j) := st in
            let '(xi, yi) := nth i districtCoords (nan, nan) in
            let '(xj, yj) := nth j districtCoords (nan, nan) in
            let intersect :=
              xorb (gt yi lat) (gt yj lat)
              && lt lng ((xj - xi) * (lat - yi) / (yj - yi) + xi)%float in
            (if intersect then negb inside else inside, i))
         (seq 0 len) (false, (len - 1)%nat)).

(** ** Side-table loader *)

Definition nonblank (line : string) : bool := negb (String.eqb (trim line) "").

(** [csvText.split('\n').filter(line => line.trim())]. *)
Definition csvLines (csvText : string) : list string :=
  List.filter nonblank (split_on newline csvText).

(** The character loop of [parseCSVLine]. *)
Fixpoint parseCSVLine_loop (line : string) (result : list string)
    (current : string) (inQuotes : bool) : list string :=
  match line with
  | EmptyString => result ++ [trim current]
  | String char rest =>
      if Ascii.eqb char quote then parseCSVLine_loop rest result current (negb inQuotes)
      else if Ascii.eqb char comma && negb inQuotes then
        parseCSVLine_loop rest (result ++ [trim current]) EmptyString inQuotes
      else parseCSVLine_loop rest result (current ++ String char EmptyString) inQuotes
  end.

Definition parseCSVLine (line : string) : list string :=
  parseCSVLine_loop line [] EmptyString false.

(** [array.indexOf(x)] on strings: the first position, or -1. *)
Fixpoint indexOf (l : list string) (x : string) : Z :=
  match l with
  | [] => -1
  | y :: r =>
      if String.eqb y x then 0
      else let i := indexOf r x in if i <? 0 then -1 else i + 1
  end.

(** [array[i]]: [None] is [undefined], as for every index out of range. *)
Definition at_index (l : list string) (i : Z) : option string :=
  if i <? 0 then None else nth_error l (Z.to_nat i).

(** [parseFloat(x)] where [x] may be [undefined]. *)
Definition parseFloat_arg (x : option string) : float :=
  match x with
  | Some s => parseFloat s
  | None => parseFloat (ToString Undefined)
  end.

(** Truthiness of a string that may be [undefined]. *)
Definition truthy_string (x : option string) : bool :=
  match x with
  | Some s => negb (String.eqb s "")
  | None => false
  end.

Definition geoIdPrefix : string := "1400000US".

(** [pred3PEMap[geoid] = pred3PE] on the plain object [pred3PEMap]: the key
    [__proto__] is an accessor of [Object.prototype], whose setter takes the
    assignment and ignores a number; under every other key the object gets
    an own property, or a new value for the one it has. *)
Definition assign (pred3PEMap : gmap string float) (geoid : string) (pred3PE : float)
  : gmap string float :=
  if String.eqb geoid "__proto__" then pred3PEMap else <[geoid := pred3PE]> pred3PEMap.

(** One turn of the loading loop: the map after the row [line]. *)
Definition loadRow (geoIdIndex pred3PEIndex : Z) (pred3PEMap : gmap string float)
    (line : string) : gmap string float :=
  if negb (nonblank line) then pred3PEMap
  else
    let values := parseCSVLine line in
    if Z.max geoIdIndex pred3PEIndex <? Z.of_nat (length values) then
      let geoId := option_map trim (at_index values geoIdIndex) in
      let pred3PE := parseFloat_arg (option_map trim (at_index values pred3PEIndex)) in
      if truthy_string geoId && negb (isNaN pred3PE) then
        let geoid := replace_first_empty geoIdPrefix (default EmptyString geoId) in
        assign pred3PEMap geoid pred3PE
      else pred3PEMap
    else pred3PEMap.

(** The loader on the lines of the file. Without a first line
    [parseCSVLine(lines[0])] raises a TypeError, which the enclosing [try]
    catches: [None], and the stored map stays as it was. *)
Definition loadPred3PELines (lines : list string) : option (gmap string float) :=
  match lines with
  | [] => None
  | header :: rows =>
      let headers := parseCSVLine header in
      let geoIdIndex := indexOf headers "GEO_ID" in
      let pred3PEIndex := indexOf headers "PRED3_PE" in
      Some (fold_left (loadRow geoIdIndex pred3PEIndex) rows ∅)
  end.

Definition loadPred3PE (csvText : string) : option (gmap string float) :=
  loadPred3PELines (csvLines csvText).

(** ** Feature classifier *)

Definition ratingKey : string := "T_FEMA_National_Risk_Index_$_.FEMAIndexRating".
Definition populationKey : string :=
  "T_CENSUS_Community_Resilience_Est$_.Total_population__excludes_adult_correctional_juvenile_facilitie".
Definition geoidKey : string := "L0Census_Tracts.GEOID".

(** [pred3PEDataRef.current[geoid]] on the plain object that holds the
    table: the key is the string of [geoid]; an own property gives its
    number, a key the object does not have is looked up in
    [Object.prototype], and only a key that is not there either gives
    [undefined]. *)
Definition lookupPred3PE (pred3PEData : gmap string float) (geoid : Scalar) : Scalar :=
  let key := ToString geoid in
  match pred3PEData !! key with
  | Some v => Num v
  | None => if inherited key then Builtin key else Undefined
  end.

(** The callback of [processedFeatures]. *)
Definition processFeature (pred3PEData : gmap string float) (index : nat)
    (feature : Feature) : Feature :=
  let properties := default ∅ (properties feature) in
  let riskRating := or_else (get_property properties ratingKey) Null in
  let populationValue := parseNumericValue (get_property properties populationKey) in
  let geoid := get_property properties geoidKey in
  let pred3PE := if truthy geoid then lookupPred3PE pred3PEData geoid else Null in
  {| feature_id := coalesce (feature_id feature) (coalesce geoid (Num (Num_of_nat index)));
     geometry := geometry feature;
     properties :=
       Some (<["__pred3PE" := if negb (nullish pred3PE) then pred3PE else Null]>
               (<["__population" := populationValue]>
                  (<["__riskRating" := riskRating]> properties)));
     feature_rest := feature_rest feature |}.

Definition processedFeatures (pred3PEData : gmap string float)
    (reprojected : FeatureCollection) : list Feature :=
  imap (processFeature pred3PEData) (features reprojected).

(** ** Summary statistics *)

(** [feature.properties.__name] on a processed feature. *)
Definition enrichment (name : string) (feature : Feature) : Scalar :=
  get_property (default ∅ (properties feature)) name.

(** [.filter(value => Number.isFinite(value))], as numbers. *)
Definition finiteNumbers (values : list Scalar) : list float :=
  omap (fun v => match v with
                 | Num n => if isFiniteNum n then Some n else None
                 | _ => None
                 end) values.

(** [.filter(value => value !== null && value !== undefined &&
    Number.isFinite(value))], as numbers. *)
Definition definedFiniteNumbers (values : list Scalar) : list float :=
  finiteNumbers (List.filter (fun v => negb (nullish v)) values).

(** Equality of the elements of a [Set] (SameValueZero). *)
Definition sameValueZero (a b : Scalar) : bool :=
  match a, b with
  | Undefined, Undefined | Null, Null => true
  | Bool x, Bool y => Bool.eqb x y
  | Num x, Num y => (x =? y)%float || (PrimFloat.is_nan x && PrimFloat.is_nan y)
  | Str x, Str y => String.eqb x y
  | Builtin x, Builtin y => String.eqb x y
  | _, _ => false
  end.

(** [[...new Set(values)]]: first appearances, in order. *)
Definition unique (values : list Scalar) : list Scalar :=
  fold_left (fun seen v => if existsb (sameValueZero v) seen then seen else seen ++ [v])
            values [].

Record RiskStats := { ratings : list Scalar; rating_count : nat }.

Record Counts := {
  total : nat;
  missingRisk : nat;
  missingPopulation : nat;
  missingPred3PE : nat
}.

Record StatsPayload := {
  risk : RiskStats;
  population : RangeStats;
  pred3PE : RangeStats;
  counts : Counts
}.

Definition riskRatings (processed : list Feature) : list Scalar :=
  List.filter (fun v => negb (nullish v)) (List.map (enrichment "__riskRating") processed).

Definition populationValues (processed : list Feature) : list float :=
  finiteNumbers (List.map (enrichment "__population") processed).

Definition pred3PEValues (processed : list Feature) : list float :=
  definedFiniteNumbers (List.map (enrichment "__pred3PE") processed).

Definition statsPayload (processed : list Feature) : StatsPayload :=
  {| risk := {| ratings := unique (riskRatings processed);
                rating_count := length (riskRatings processed) |};
     population := getRangeStats (populationValues processed);
     pred3PE := getRangeStats (pred3PEValues processed);
     counts := {| total := length processed;
                  missingRisk := length processed - length (riskRatings processed);
                  missingPopulation := length processed - length (populationValues processed);
                  missingPred3PE := length processed - length (pred3PEValues processed) |} |}.

(** ** Colour expressions *)

Definition str (s : string) : Json := JVal (Str s).
Definition num (n : float) : Json := JVal (Num n).

Definition fallbackColor : string := "#9e9e9e".

(** [['==', ['typeof', ['get', '__pred3PE']], 'number']]. *)
Definition pred3PEIsNumber : Json :=
  JArr [str "=="; JArr [str "typeof"; JArr [str "get"; str "__pred3PE"]]; str "number"].

(** [stats.pred3PE] is always an object here, so [!pred3PEStats] is false and
    the first test is on its bounds alone. *)
Definition buildPred3PEColorExpression (stats : StatsPayload) : Json :=
  let pred3PEStats := pred3PE stats in
  match stat_min pred3PEStats, stat_max pred3PEStats with
  | Some min, Some max =>
      if (min =? max)%float then
        JArr [str "case"; pred3PEIsNumber; str "#4CAF50"; str "#9e9e9e"]
      else
        JArr [str "case"; pred3PEIsNumber;
              JArr [str "interpolate"; JArr [str "linear"]; JArr [str "get"; str "__pred3PE"];
                    num min; str "#4CAF50";
                    num (min + (max - min) * 0.25)%float; str "#8BC34A";
                    num (min + (max - min) * 0.5)%float; str "#FFC107";
                    num (min + (max - min) * 0.75)%float; str "#FF6F00";
                    num max; str "#B71C1C"];
              str "#9e9e9e"]
  | _, _ => JArr [str "case"; pred3PEIsNumber; str "#9e9e9e"; str "#9e9e9e"]
  end.

(** *** The style engine on the operators of the degenerate expressions

    The map widget evaluates an expression per feature. Its operators
    [get], [typeof], [==] and [case] follow the widget's style
    specification; [interpolate] is not evaluated here ([None]). *)

(** The name [typeof] gives to a value. *)
Definition typeName (v : Scalar) : string :=
  match v with
  | Undefined | Null => "null"
  | Bool _ => "boolean"
  | Num _ => "number"
  | Str _ => "string"
  | Builtin _ => "object"
  end.

Definition equalValues (a b : Scalar) : bool :=
  match a, b with
  | Null, Null => true
  | Bool x, Bool y => Bool.eqb x y
  | Num x, Num y => (x =? y)%float
  | Str x, Str y => String.eqb x y
  | _, _ => false
  end.

Fixpoint evaluate (props : gmap string Scalar) (e : Json) : option Scalar :=
  match e with
  | JVal Undefined => None
  | JVal v => Some v
  | JArr (JVal (Str op) :: args) =>
      if String.eqb op "get" then
        match args with
        | [JVal (Str name)] =>
            Some (match get_property props name with
                  | Undefined => Null
                  | v => v
                  end)
        | _ => None
        end
      else if String.eqb op "typeof" then
        match args with
        | [a] => option_map (fun v => Str (typeName v)) (evaluate props a)
        | _ => None
        end
      else if String.eqb op "==" then
        match args with
        | [a; b] =>
            match evaluate props a, evaluate props b with
            | Some x, Some y => Some (Bool (equalValues x y))
            | _, _ => None
            end
        | _ => None
        end
      else if String.eqb op "case" then
        (fix branches (l : list Json) : option Scalar :=
           match l with
           | [] => None
           | [fallback] => evaluate props fallback
           | test :: output :: rest =>
               match evaluate props test with
               | Some (Bool true) => evaluate props output
               | Some (Bool false) => branches rest
               | _ => None
               end
           end) args
      else None
  | JArr _ => None
  end.

(** The colour a feature is painted with under an expression. *)
Definition featureColor (e : Json) (feature : Feature) : option Scalar :=
  evaluate (default ∅ (properties feature)) e.

(** *** The categorical colour expression *)

(** [riskRatingColors], in the order [Object.entries] walks it. *)
Definition riskRatingColors : list (string * string) :=
  [("Very Low", "#4CAF50");
   ("Relatively Low", "#8BC34A");
   ("Relatively Moderate", "#FFC107");
   ("Relatively High", "#FF6F00");
   ("Very High", "#B71C1C")].

Definition buildRiskRatingColorExpression : Json :=
  let cases :=
    fold_left
      (fun cases (entry : string * string) =>
         let '(rating, color) := entry in
         cases ++ [JArr [str "=="; JArr [str "get"; str "__riskRating"]; str rating];
                   str color])
      riskRatingColors [] in
  let cases := cases ++ [str "#9e9e9e"] in
  JArr (str "case" :: cases).

(** ** Project markers *)

Definition getMarkerColor (projectType : Scalar) : string :=
  match projectType with
  | Str s =>
      if String.eqb s "Green Infrastructure" then "#e74c3c"
      else if String.eqb s "Grey Infrastructure" then "#3498db"
      else "#95a5a6"
  | _ => "#95a5a6"
  end.

(** The characters that [/[$,]/g] leaves in place. *)
Definition cost_char (c : ascii) : bool := negb (Ascii.eqb c "$" || Ascii.eqb c ",").

(** [None] is the TypeError of [cost.replace] on a truthy value that is not
    a string. *)
Definition getMarkerSize (cost : Scalar) : option float :=
  if negb (truthy cost) then Some 8%float
  else
    match cost with
    | Str s =>
        let numericCost := parseFloat (filter_chars cost_char s) in
        if gt numericCost 50000000 then Some 15%float
        else if gt numericCost 10000000 then Some 12%float
        else Some 8%float
    | _ => None
    end.

(** ** Hover highlighting

    The map widget keeps a [hover] flag per feature id, which
    [setFeatureState] writes; the handlers keep the id they highlighted last
    in [hoveredCensusIdRef]. A hover event carries the id of the feature under
    the pointer, [None] when there is no feature or its id is null or
    undefined. *)

Section Hover.
Context {Id : Type} `{Countable Id}.

Record HoverState := {
  hoveredCensusId : option Id;
  featureState : gmap Id bool
}.

Definition initialHover : HoverState :=
  {| hoveredCensusId := None; featureState := ∅ |}.

(** [if (hoveredCensusIdRef.current !== null) setFeatureState(..., { hover: false })]. *)
Definition clearHovered (st : HoverState) : gmap Id bool :=
  match hoveredCensusId st with
  | Some hovered => <[hovered := false]> (featureState st)
  | None => featureState st
  end.

Definition handleHover (featureId : option Id) (st : HoverState) : HoverState :=
  match featureId with
  | None => st
  | Some id =>
      {| hoveredCensusId := Some id;
         featureState := <[id := true]> (clearHovered st) |}
  end.

Definition handleLeave (st : HoverState) : HoverState :=
  {| hoveredCensusId := None; featureState := clearHovered st |}.

Inductive PointerEvent :=
  | Hover (featureId : option Id)
  | Leave.

Definition handlePointer (st : HoverState) (e : PointerEvent) : HoverState :=
  match e with
  | Hover featureId => handleHover featureId st
  | Leave => handleLeave st
  end.
End Hover.

End App.

(** ** The vocabulary of the statements *)

Module Notions.
Import JS App.

(** Every coordinate array reachable in the geometries of a collection, in
    the order of the walk. *)
Definition allCoordinates (fc : FeatureCollection) : list Json :=
  List.flat_map (fun feature => walkCoordinates (geometry feature)) (features fc).

(** The pair [(x, y)] of a coordinate array. *)
Definition pairOf (coord : Json) : float * float := (component coord 0, component coord 1).

(** Every coordinate pair reachable in the geometries of a collection. *)
Definition coordinatePairs (fc : FeatureCollection) : list (float * float) :=
  List.map pairOf (allCoordinates fc).

(** [|x| <= 180] and [|y| <= 90]. *)
Definition inGeographicBounds (p : float * float) : bool :=
  (Math_abs (fst p) <=? 180)%float && (Math_abs (snd p) <=? 90)%float.

(** [|x| > 180] or [|y| > 90]: the test of the normaliser. *)
Definition exceedsBounds (p : float * float) : bool :=
  gt (Math_abs (fst p)) 180 || gt (Math_abs (snd p)) 90.

(** [toWgs84Coordinate] on a pair. *)
Definition wgs84Pair (host : MathHost) (p : float * float) : float * float :=
  pairOf (toWgs84Coordinate host (fst p) (snd p)).

(** The array starts with two numbers. *)
Definition isPair (l : list Json) : bool :=
  match l with
  | JVal (Num _) :: JVal (Num _) :: _ => true
  | _ => false
  end.

(** The value is a number. *)
Definition isNumber (j : Json) : bool :=
  match j with
  | JVal (Num _) => true
  | _ => false
  end.

(** [toWgs84Coordinate] on a coordinate array. *)
Definition toWgs84 (host : MathHost) (coord : Json) : Json :=
  toWgs84Coordinate host (component coord 0) (component coord 1).

(** The identifier field of a row, trimmed; [None] is [undefined]. *)
Definition rowIdentifier (geoIdIndex : Z) (line : string) : option string :=
  option_map trim (at_index (parseCSVLine line) geoIdIndex).

(** The parsed value field of a row. *)
Definition rowValue (pred3PEIndex : Z) (line : string) : float :=
  parseFloat_arg (option_map trim (at_index (parseCSVLine line) pred3PEIndex)).

(** The key of a row: the identifier without the first [1400000US] in it. *)
Definition normalizedKey (geoId : string) : string :=
  replace_first_empty geoIdPrefix geoId.

(** The row has more fields than the larger of the two column indices. *)
Definition longEnough (geoIdIndex pred3PEIndex : Z) (line : string) : bool :=
  Z.max geoIdIndex pred3PEIndex <? Z.of_nat (length (parseCSVLine line)).

(** The string has white space only. *)
Fixpoint all_space (s : string) : bool :=
  match s with
  | EmptyString => true
  | String c r => is_space c && all_space r
  end.

(** The property bag the classifier reads: [feature.properties || {}]. *)
Definition sourceProperties (feature : Feature) : gmap string Scalar :=
  default ∅ (properties feature).

(** The join identifier of a feature. *)
Definition sourceGeoid (feature : Feature) : Scalar :=
  get_property (sourceProperties feature) geoidKey.

(** The names of the enrichment fields. *)
Definition enrichmentNames : gset string :=
  {[ "__pred3PE"; "__population"; "__riskRating" ]}.

(** The colour the palette gives a rating: its entry in [riskRatingColors],
    the fallback colour without one. *)
Definition ratingColor (rating : Scalar) : string :=
  match rating with
  | Str r =>
      match List.find (fun entry => String.eqb r (fst entry)) riskRatingColors with
      | Some (_, color) => color
      | None => fallbackColor
      end
  | _ => fallbackColor
  end.

(** No element of the list has the same value as an element before it. *)
Fixpoint pairwiseDistinct (l : list Scalar) : bool :=
  match l with
  | [] => true
  | x :: r => negb (existsb (fun y => sameValueZero y x) r) && pairwiseDistinct r
  end.

(** The character occurs in the string. *)
Fixpoint has_char (c : ascii) (s : string) : bool :=
  match s with
  | EmptyString => false
  | String d r => Ascii.eqb d c || has_char c r
  end.

(** A field that needs no quoting: no quote, no comma, no white space at
    either end. *)
Definition plainField (field : string) : bool :=
  negb (has_char quote field) && negb (has_char comma field)
  && String.eqb (trim field) field.

(** [fields.join(',')]. *)
Definition joinFields (fields : list string) : string := String.concat "," fields.

(** What a reprojection leaves of a feature: everything but the
    coordinates of its geometry. *)
Definition sameButCoordinates (feature feature' : Feature) : Prop :=
  feature_id feature' = feature_id feature
  /\ properties feature' = properties feature
  /\ feature_rest feature' = feature_rest feature
  /\ match geometry feature, geometry feature' with
     | None, None => True
     | Some g, Some g' => geometry_rest g' = geometry_rest g
     | _, _ => False
     end.

(** The cost [getMarkerSize] reads in a string. *)
Definition markerCost (cost : string) : float := parseFloat (filter_chars cost_char cost).

(** Whether the edge between a vertex and the one before it is counted by
    [isPointInDistrict] for the point [(lng, lat)]. *)
Definition crossing (lng lat : float) (v previous : float * float) : bool :=
  let '(xi, yi) := v in
  let '(xj, yj) := previous in
  xorb (gt yi lat) (gt yj lat)
  && lt lng ((xj - xi) * (lat - yi) / (yj - yi) + xi)%float.

(** The body of the loop of [isPointInDistrict]. *)
Definition rayStep (lng lat : float) (districtCoords : list (float * float))
    (st : bool * nat) (i : nat) : bool * nat :=
  let '(inside, j) := st in
  let '(xi, yi) := nth i districtCoords (nan, nan) in
  let '(xj, yj) := nth j districtCoords (nan, nan) in
  let intersect :=
    xorb (gt yi lat) (gt yj lat)
    && lt lng ((xj - xi) * (lat - yi) / (yj - yi) + xi)%float in
  (if intersect then negb inside else inside, i).

(** The loop of [isPointInDistrict] as a walk along the vertices, each
    vertex with the one before it. *)
Fixpoint walkEdges (lng lat : float) (previous : float * float)
    (vertices : list (float * float)) (inside : bool) : bool :=
  match vertices with
  | [] => inside
  | v :: rest =>
      walkEdges lng lat v rest
        (if crossing lng lat v previous then negb inside else inside)
  end.

(** A number on a scale of integer triples compared lexicographically: the
    class (infinities, finite numbers by sign, zero), then the exponent and
    the mantissa, mirrored for negative numbers. [NaN] has no place on it. *)
Definition rank (x : spec_float) : option (Z * Z * Z) :=
  match x with
  | S754_nan => None
  | S754_infinity true => Some (-2, 0, 0)
  | S754_finite true m e => Some (-1, - e, Zneg m)
  | S754_zero _ => Some (0, 0, 0)
  | S754_finite false m e => Some (1, e, Zpos m)
  | S754_infinity false => Some (2, 0, 0)
  end.

Definition lexcmp (p q : Z * Z * Z) : comparison :=
  let '(a, b, c) := p in
  let '(a', b', c') := q in
  match a ?= a' with
  | Eq => match b ?= b' with
          | Eq => c ?= c'
          | r => r
          end
  | r => r
  end.

Definition lexlt (p q : Z * Z * Z) : Prop :=
  let '(a, b, c) := p in
  let '(a', b', c') := q in
  a < a' \/ (a = a' /\ (b < b' \/ (b = b' /\ c < c'))).

(** The order on numbers through their ranks. *)
Definition frank (x : float) : option (Z * Z * Z) := rank (Prim2SF x).

(** The number is not [NaN]. *)
Definition notNaN (x : float) : bool := negb (PrimFloat.is_nan x).

(** [x >= y] on numbers. *)
Definition geb (x y : float) : bool := (y <=? x)%float.

(** The string is empty or starts with a character that is not white space. *)
Definition startsBlack (s : string) : bool :=
  match s with
  | EmptyString => true
  | String c _ => negb (is_space c)
  end.

(** Only the feature recorded in [hoveredCensusIdRef] can have its hover
    flag set. *)
Definition onlyHoveredIsLit {Id : Type} `{Countable Id} (st : HoverState (Id := Id)) : Prop :=
  forall id, featureState st !! id = Some true -> hoveredCensusId st = Some id.

(** *** The values of binary64 numbers

    A finite number is [m * 2^e] for a mantissa [m] and an exponent [e];
    its operations round the exact result, a real number. *)

(** [2^e]. *)
Definition pow2 (e : Z) : R := powerRZ 2 e.

(** [m * 2^e]. *)
Definition scaled (m e : Z) : R := (IZR m * pow2 e)%R.

(** A mantissa shifted to the exponent [e], with its round and sticky
    bits, locates the real [x]: [x] lies in the interval that starts at the
    mantissa and is one unit long, and both bits are clear exactly when [x]
    is at its start. *)
Definition located (x : R) (mrs : shr_record) (e : Z) : Prop :=
  (scaled (shr_m mrs) e <= x < scaled (shr_m mrs + 1) e)%R
  /\ (shr_r mrs || shr_s mrs = false <-> x = scaled (shr_m mrs) e).

(** The mantissa and the exponent are those of a binary64 number. *)
Definition canonical (m : positive) (e : Z) : Prop :=
  canonical_mantissa prec emax m e = true.

(** The bound [m * 2^e] is far below the overflow threshold. *)
Definition small (m : positive) (e : Z) : Prop :=
  (scaled (Z.pos m) e < pow2 (emax - prec + 1))%R.

(** The number is finite and its magnitude is at most [b]. *)
Definition magLe (x : float) (b : R) : Prop :=
  match Prim2SF x with
  | S754_zero _ => True
  | S754_finite _ m e => (scaled (Z.pos m) e <= b)%R
  | _ => False
  end.

(** The number is finite, not negative, and at most [b]. *)
Definition posLe (x : float) (b : R) : Prop :=
  match Prim2SF x with
  | S754_zero _ => True
  | S754_finite false m e => (scaled (Z.pos m) e <= b)%R
  | _ => False
  end.

(** The pair is in the domain of the projection: [x] within the extent
    [20037508.34] of the projected plane on either side, and [y] a number. *)
Definition withinExtent (p : float * float) : bool :=
  (Math_abs (fst p) <=? 20037508.34)%float && negb (isNaN (snd p)).

(** The host keeps the arc tangent of an exponential within its range: for
    every number [u], [Math.atan(Math.exp(u))] lies between [0] and
    [Math.PI / 2]. *)
Definition hostInRange (host : MathHost) : Prop :=
  forall u : float,
    isNaN u = false ->
    (0 <=? Math_atan host (Math_exp host u))%float = true
    /\ (Math_atan host (Math_exp host u) <=? Math_PI / 2)%float = true.



End Notions.

(** ** Example data *)

Module Examples.
Import JS App.

(** A host to run the normaliser on examples: [exp] by a Taylor polynomial
    on a scaled argument and repeated squaring, [atan] by argument halving
    and its power series. *)

Definition series_exp (y : float) : float :=
  fold_right (fun k acc => (1 + y / k * acc)%float) 1%float
    [1; 2; 3; 4; 5; 6; 7; 8; 9; 10; 11; 12; 13; 14; 15; 16]%float.

Definition approx_exp (x : float) : float :=
  if PrimFloat.is_nan x then nan
  else if (710 <? x)%float then infinity
  else if (x <? -746)%float then zero
  else Nat.iter 10 (fun p => (p * p)%float) (series_exp (x / 1024)%float).

Definition series_atan (y : float) : float :=
  let z := (y * y)%float in
  (y * fold_right (fun k acc => (1 / k - z * acc)%float) 0%float
         [1; 3; 5; 7; 9; 11; 13; 15; 17; 19; 21; 23; 25; 27; 29; 31; 33; 35; 37; 39; 41]
      )%float.

Definition halve_tangent (t : float) : float := (t / (1 + PrimFloat.sqrt (1 + t * t)))%float.

Definition approx_atan (x : float) : float :=
  if PrimFloat.is_nan x then nan
  else if (1 <? PrimFloat.abs x)%float then
    let r := (2 * series_atan (halve_tangent (1 / PrimFloat.abs x)))%float in
    if (x <? 0)%float then (r - Math_PI / 2)%float else (Math_PI / 2 - r)%float
  else (2 * series_atan (halve_tangent x))%float.

Definition exampleHost : MathHost :=
  {| Math_exp := approx_exp; Math_atan := approx_atan |}.

Definition unitSquare : list (float * float) := [(0, 0); (1, 0); (1, 1); (0, 1)]%float.

(** A point feature. *)
Definition pointFeature (x y : float) : Feature :=
  {| feature_id := Undefined;
     geometry := Some {| coordinates := JArr [num x; num y];
                         geometry_rest := {[ "type" := str "Point" ]} |};
     properties := Some ∅;
     feature_rest := {[ "type" := str "Feature" ]} |}.

Definition collectionOf (fs : list Feature) : FeatureCollection :=
  {| features := fs; collection_rest := {[ "type" := str "FeatureCollection" ]} |}.

(** A point in degrees followed by a point in projected metres. *)
Definition mixedCollection : FeatureCollection :=
  collectionOf [pointFeature (-80.1918) 25.7617; pointFeature (-8926910.34) 2969596.28].

Definition miamiCollection : FeatureCollection :=
  collectionOf [pointFeature (-80.1918) 25.7617; pointFeature (-80.13) 25.79].

Definition nl : string := String newline EmptyString.

Definition tractTable : string :=
  "TRACT,PRED3_PE" ++ nl ++ "1400000US12086000107,3.14" ++ nl ++ "1400000US12086000108,2.5".

(** A census tract as the source file has it. *)
Definition tract (id : Scalar) (props : list (string * Scalar)) : Feature :=
  {| feature_id := id;
     geometry := Some {| coordinates :=
                           JArr [JArr [JArr [num (-80.2); num 25.7];
                                       JArr [num (-80.1); num 25.7];
                                       JArr [num (-80.1); num 25.8];
                                       JArr [num (-80.2); num 25.7]]];
                         geometry_rest := {[ "type" := str "Polygon" ]} |};
     properties := Some (list_to_map props);
     feature_rest := {[ "type" := str "Feature" ]} |}.

Definition threeTracts : FeatureCollection :=
  {| features :=
       [tract (Num 7) [(geoidKey, Str "12086000107"); (ratingKey, Str "Very High")];
        tract Undefined [(geoidKey, Str "12086000108"); (populationKey, Str "4,321")];
        tract Undefined []];
     collection_rest := {[ "type" := str "FeatureCollection" ]} |}.



(** Tracts classified without a side table. *)
Definition unjoinedTracts : list Feature :=
  processedFeatures ∅ threeTracts.

(** A classified tract with a population figure. *)
Definition countedTract : Feature :=
  processFeature ∅ 0 (tract Undefined [(geoidKey, Str "12086000108");
                                        (populationKey, Str "4,321")]).

(** A classified tract with an entry in the side table. *)
Definition joinedTract : Feature :=
  processFeature {[ "12086000107" := 3.14%float ]} 0
    (tract Undefined [(geoidKey, Str "12086000107")]).

(** A side table with one numeric and one non-numeric value. *)
Definition smallTable : string :=
  "GEO_ID,PRED3_PE" ++ nl ++ "1400000US12086000107,3.14" ++ nl ++ "1400000US12086000108,n/a".

(** The example host with its results kept within the ranges of the
    functions it approximates: [r] when it lies between [lo] and [hi], and
    [lo] otherwise. *)
Definition guard (lo hi r : float) : float :=
  if (lo <=? r)%float && (r <=? hi)%float then r else lo.

Definition guarded_exp (u : float) : float :=
  if PrimFloat.is_nan u then nan else guard 0 infinity (approx_exp u).

Definition guarded_atan (t : float) : float :=
  if PrimFloat.is_nan t then nan
  else if (0 <=? t)%float then guard 0 (Math_PI / 2) (approx_atan t)
  else guard (- (Math_PI / 2)) 0 (approx_atan t).

Definition guardedHost : MathHost :=
  {| Math_exp := guarded_exp; Math_atan := guarded_atan |}.

(** Two points in projected metres. *)
Definition projectedCollection : FeatureCollection :=
  collectionOf [pointFeature (-8926910.34) 2969596.28; pointFeature (-8920000) 2970000].

(** A point far outside the extent of the projected plane. *)
Definition farCollection : FeatureCollection :=
  collectionOf [pointFeature 1000000000 0].

End Examples.

(** * Properties *)

(** ** Order facts on binary64 numbers *)

Module FloatFacts.

Lemma SFcompare_swap (x y : spec_float) :
  SFcompare y x = option_map CompOpp (SFcompare x y).
Proof.
  destruct x as [sx|sx| |sx mx ex], y as [sy|sy| |sy my ey]; simpl;
    try reflexivity; try (destruct sx; reflexivity); try (destruct sy; reflexivity);
    try (destruct sx, sy; reflexivity).
  destruct sx, sy; try reflexivity.
  - rewrite (Z.compare_antisym ey ex).
    destruct (ey ?= ex)%Z eqn:E; simpl; try reflexivity.
    rewrite (Pos.compare_cont_antisym my mx Eq). simpl.
    destruct (Pos.compare_cont Eq mx my); reflexivity.
  - rewrite (Z.compare_antisym ey ex).
    destruct (ey ?= ex)%Z eqn:E; simpl; try reflexivity.
    rewrite (Pos.compare_cont_antisym mx my Eq). reflexivity.
Qed.

Lemma ltb_asym (a b : float) : (a <? b)%float = true -> (b <? a)%float = false.
Proof.
  rewrite !ltb_spec. unfold SFltb. rewrite (SFcompare_swap (Prim2SF a) (Prim2SF b)).
  destruct (SFcompare (Prim2SF a) (Prim2SF b)) as [[]|]; simpl; congruence.
Qed.

Lemma leb_not_gt (a b : float) : (a <=? b)%float = true -> (b <? a)%float = false.
Proof.
  rewrite ltb_spec, leb_spec. unfold SFltb, SFleb.
  rewrite (SFcompare_swap (Prim2SF a) (Prim2SF b)).
  destruct (SFcompare (Prim2SF a) (Prim2SF b)) as [[]|]; simpl; congruence.
Qed.

End FloatFacts.

(** ** Rounding

    The operations on binary64 numbers round the exact result to the
    nearest number. Two facts about that are used below: rounding never
    produces NaN, and the rounding of a real that is at most a number is at
    most that number. *)

Module Rounding.
Import Notions.

(** Closed facts about numbers are settled by computation. *)
Ltac prim := vm_compute; reflexivity.

(** [H : Prim2SF k = S754_finite ...], by computation. *)
Ltac primSF k H :=
  let v := eval vm_compute in (Prim2SF k) in
  assert (H : Prim2SF k = v) by (vm_compute; reflexivity).

(** *** Rounding never gives NaN *)

Lemma shr_1_nonneg (mrs : shr_record) : 0 <= shr_m mrs -> 0 <= shr_m (shr_1 mrs).
Proof.
  destruct mrs as [m r s]. simpl. destruct m as [|[p|p|]|p]; simpl; lia.
Qed.

Lemma iter_shr_1_nonneg (p : positive) :
  forall mrs, 0 <= shr_m mrs -> 0 <= shr_m (SpecFloat.iter_pos shr_1 p mrs).
Proof.
  induction p as [p IH|p IH|]; intros mrs H; simpl.
  - apply IH, IH, shr_1_nonneg, H.
  - apply IH, IH, H.
  - apply shr_1_nonneg, H.
Qed.

Lemma shr_fexp_nonneg (m e : Z) (l : location) :
  0 <= m -> 0 <= shr_m (fst (shr_fexp prec emax m e l)).
Proof.
  intros H. unfold shr_fexp, shr.
  assert (H0 : 0 <= shr_m (shr_record_of_loc m l)) by (destruct l as [|[]]; exact H).
  destruct (_ - e) as [|p|p]; simpl; [exact H0 | | exact H0].
  apply iter_shr_1_nonneg, H0.
Qed.

Lemma round_nearest_even_nonneg (m : Z) (l : location) :
  0 <= m -> 0 <= round_nearest_even m l.
Proof.
  intros H. destruct l as [|[]]; simpl; try lia. destruct (Z.even m); lia.
Qed.

Lemma binary_round_aux_not_nan (sx : bool) (mx ex : Z) (lx : location) :
  0 <= mx -> binary_round_aux prec emax sx mx ex lx <> S754_nan.
Proof.
  intros H. unfold binary_round_aux.
  pose proof (shr_fexp_nonneg mx ex lx H) as H1.
  destruct (shr_fexp prec emax mx ex lx) as [mrs' e']. simpl in H1.
  pose proof (shr_fexp_nonneg _ e' loc_Exact
                (round_nearest_even_nonneg _ (loc_of_shr_record mrs') H1)) as H2.
  destruct (shr_fexp prec emax _ e' loc_Exact) as [mrs'' e'']. simpl in H2.
  destruct (shr_m mrs'') as [|m|m]; [discriminate | | lia].
  destruct (e'' <=? emax - prec); discriminate.
Qed.

Lemma binary_round_not_nan (sx : bool) (mx : positive) (ex : Z) :
  binary_round prec emax sx mx ex <> S754_nan.
Proof.
  unfold binary_round. destruct (shl_align _ _ _) as [mz ez].
  apply binary_round_aux_not_nan. lia.
Qed.

Lemma binary_normalize_not_nan (m e : Z) (szero : bool) :
  binary_normalize prec emax m e szero <> S754_nan.
Proof.
  destruct m; simpl; [discriminate | apply binary_round_not_nan..].
Qed.

Lemma Prim2SF_nan (x : float) : Prim2SF x = S754_nan <-> PrimFloat.is_nan x = true.
Proof.
  unfold Prim2SF. destruct (PrimFloat.is_nan x); [split; reflexivity|].
  split; [|discriminate].
  destruct (is_zero x); [discriminate|]. destruct (is_infinity x); [discriminate|].
  destruct (Z.frexp x) as [r e]. destruct (shr_fexp _ _ _ _ _) as [s e'].
  destruct (shr_m s); discriminate.
Qed.

Lemma SF2Prim_not_nan (x : spec_float) :
  x <> S754_nan -> PrimFloat.is_nan (SF2Prim x) = false.
Proof.
  intros H. destruct (PrimFloat.is_nan (SF2Prim x)) eqn:E; [|reflexivity].
  apply Prim2SF_nan in E. exfalso.
  destruct x as [[]|[]| |s m e]; try (vm_compute in E; discriminate E); [contradiction|].
  unfold SF2Prim in E.
  assert (N : Prim2SF (Z.ldexp (of_uint63 (Uint63.of_Z (Z.pos m))) e) <> S754_nan).
  { rewrite Z_ldexp_spec, of_uint63_spec. unfold SFldexp.
    pose proof (binary_normalize_not_nan (Uint63.to_Z (Uint63.of_Z (Z.pos m))) 0 false) as B.
    destruct (binary_normalize _ _ _ _ _) as [| | |s' m' e']; try discriminate;
      [contradiction | apply binary_round_not_nan]. }
  destruct s; [|contradiction].
  rewrite opp_spec in E. destruct (Prim2SF _); try discriminate E. contradiction.
Qed.

(** *** Powers of two and scaled mantissas *)

Lemma pow2_pos (e : Z) : (0 < pow2 e)%R.
Proof. apply powerRZ_lt. lra. Qed.

Lemma pow2_add (a b : Z) : pow2 (a + b) = (pow2 a * pow2 b)%R.
Proof. apply powerRZ_add. lra. Qed.

Lemma pow2_Z (n : Z) : 0 <= n -> pow2 n = IZR (2 ^ n).
Proof.
  intros H. unfold pow2. rewrite <- (Z2Nat.id n H), <- pow_powerRZ, pow_IZR. reflexivity.
Qed.

Lemma pow2_ge_1 (n : Z) : 0 <= n -> (1 <= pow2 n)%R.
Proof.
  intros H. rewrite (pow2_Z n H). apply IZR_le.
  pose proof (Z.pow_pos_nonneg 2 n). lia.
Qed.

Lemma pow2_le (a b : Z) : a <= b -> (pow2 a <= pow2 b)%R.
Proof.
  intros H. replace b with (a + (b - a)) by lia. rewrite pow2_add.
  pose proof (pow2_pos a). pose proof (pow2_ge_1 (b - a) ltac:(lia)). nra.
Qed.

Lemma pow2_lt (a b : Z) : a < b -> (pow2 a < pow2 b)%R.
Proof.
  intros H. replace b with (a + 1 + (b - a - 1)) by lia. rewrite !pow2_add.
  pose proof (pow2_pos a). pose proof (pow2_ge_1 (b - a - 1) ltac:(lia)).
  assert (pow2 1 = 2%R) by (unfold pow2; simpl; lra). nra.
Qed.

Lemma pow2_lt_inv (a b : Z) : (pow2 a < pow2 b)%R -> a < b.
Proof.
  intros H. destruct (Z_lt_le_dec a b) as [|L]; [assumption|].
  apply pow2_le in L. lra.
Qed.

Lemma scaled_shift (m e n : Z) : 0 <= n -> scaled (m * 2 ^ n) e = scaled m (e + n).
Proof.
  intros H. unfold scaled. rewrite mult_IZR, <- (pow2_Z n H), pow2_add. ring.
Qed.

Lemma scaled_le (m m' e : Z) : m <= m' -> (scaled m e <= scaled m' e)%R.
Proof.
  intros H. unfold scaled. apply IZR_le in H. pose proof (pow2_pos e). nra.
Qed.

Lemma scaled_lt_inv (m m' e : Z) : (scaled m e < scaled m' e)%R -> m < m'.
Proof.
  unfold scaled. intros H. apply lt_IZR. pose proof (pow2_pos e). nra.
Qed.

Lemma scaled_le_inv (m m' e : Z) : (scaled m e <= scaled m' e)%R -> m <= m'.
Proof.
  unfold scaled. intros H. apply le_IZR. pose proof (pow2_pos e). nra.
Qed.

Lemma scaled_mul (a e b f : Z) : (scaled a e * scaled b f)%R = scaled (a * b) (e + f).
Proof. unfold scaled. rewrite mult_IZR, pow2_add. ring. Qed.

(** *** The number of digits of a mantissa *)

Lemma digits2_size (p : positive) : digits2_pos p = Pos.size p.
Proof. induction p as [p IH|p IH|]; simpl; rewrite ?IH; reflexivity. Qed.

Lemma digits2_bounds (p : positive) :
  2 ^ (Z.pos (digits2_pos p) - 1) <= Z.pos p < 2 ^ Z.pos (digits2_pos p).
Proof.
  rewrite digits2_size. split.
  - pose proof (Pos.size_le p) as H.
    assert (H' : 2 ^ Z.pos (Pos.size p) <= 2 * Z.pos p).
    { rewrite <- Pos2Z.inj_pow. change (2 * Z.pos p) with (Z.pos p~0). apply Pos2Z.pos_le_pos, H. }
    replace (Z.pos (Pos.size p)) with (Z.pos (Pos.size p) - 1 + 1) in H' by lia.
    rewrite Z.pow_add_r in H' by lia. change (2 ^ 1) with 2 in H'. lia.
  - pose proof (Pos.size_gt p) as H. rewrite <- Pos2Z.inj_pow. apply Pos2Z.pos_lt_pos, H.
Qed.

Lemma scaled_digits (p : positive) (e : Z) :
  (pow2 (Z.pos (digits2_pos p) - 1 + e) <= scaled (Z.pos p) e
   < pow2 (Z.pos (digits2_pos p) + e))%R.
Proof.
  destruct (digits2_bounds p) as [L U]. rewrite !pow2_add. unfold scaled.
  rewrite (pow2_Z (Z.pos (digits2_pos p) - 1)) by lia.
  rewrite (pow2_Z (Z.pos (digits2_pos p))) by lia.
  apply IZR_le in L. apply IZR_lt in U. pose proof (pow2_pos e). split; nra.
Qed.

(** *** Shifting a mantissa to a higher exponent

    A shift by one bit halves the mantissa and keeps the real located. *)

Lemma scaled_succ (m e : Z) : scaled m (e + 1) = (2 * scaled m e)%R.
Proof.
  unfold scaled. rewrite pow2_add. assert (pow2 1 = 2%R) by (unfold pow2; simpl; lra).
  rewrite H. ring.
Qed.

Lemma scaled_plus (m n e : Z) : scaled (m + n) e = (scaled m e + scaled n e)%R.
Proof. unfold scaled. rewrite plus_IZR. ring. Qed.

Lemma scaled_0 (e : Z) : scaled 0 e = 0%R.
Proof. unfold scaled. ring. Qed.

Lemma scaled_1_pos (e : Z) : (0 < scaled 1 e)%R.
Proof. unfold scaled. pose proof (pow2_pos e). lra. Qed.

Lemma shr_1_spec (m : Z) (r s : bool) :
  0 <= m ->
  shr_1 {| shr_m := m; shr_r := r; shr_s := s |}
  = {| shr_m := Z.div2 m; shr_r := Z.odd m; shr_s := r || s |}.
Proof. destruct m as [|[p|p|]|p]; intros H; try reflexivity; lia. Qed.

Lemma shr_1_located (x : R) (mrs : shr_record) (e : Z) :
  0 <= shr_m mrs -> located x mrs e ->
  located x (shr_1 mrs) (e + 1) /\ 0 <= shr_m (shr_1 mrs).
Proof.
  destruct mrs as [m r s]. unfold located. cbn [shr_m shr_r shr_s].
  intros Hm [[L U] X]. rewrite (shr_1_spec m r s Hm). cbn [shr_m shr_r shr_s].
  assert (D : (Z.odd m = false /\ m = 2 * Z.div2 m)
              \/ (Z.odd m = true /\ m = 2 * Z.div2 m + 1)).
  { pose proof (Z.div2_odd m) as D. destruct (Z.odd m); cbn [Z.b2z] in D; [right | left];
      (split; [reflexivity | lia]). }
  generalize dependent (Z.odd m). generalize dependent (Z.div2 m). intros q b D.
  assert (Hq : 0 <= q) by lia.
  split; [|exact Hq].
  rewrite !scaled_succ.
  assert (E2 : (2 * scaled q e)%R = scaled (2 * q) e)
    by (unfold scaled; rewrite mult_IZR; ring).
  assert (E3 : (2 * scaled (q + 1) e)%R = scaled (2 * q + 2) e)
    by (unfold scaled; rewrite !plus_IZR, mult_IZR; ring).
  rewrite E2, E3.
  assert (A : (scaled (2 * q) e <= scaled m e)%R) by (apply scaled_le; lia).
  assert (B : (scaled (m + 1) e <= scaled (2 * q + 2) e)%R) by (apply scaled_le; lia).
  split; [lra|]. split.
  - intros H. apply orb_false_iff in H as [Hb Hrs].
    replace (2 * q) with m by (destruct D as [[_ D]|[D _]]; [lia | congruence]).
    apply X, Hrs.
  - intros H. assert (Em : (scaled m e <= scaled (2 * q) e)%R) by lra.
    apply scaled_le_inv in Em.
    apply orb_false_iff. split.
    + destruct D as [[D _]|[_ D]]; [exact D | lia].
    + apply X. replace m with (2 * q) by lia. exact H.
Qed.

Lemma iter_shr_1_located (p : positive) :
  forall (x : R) (mrs : shr_record) (e : Z),
    0 <= shr_m mrs -> located x mrs e ->
    located x (SpecFloat.iter_pos shr_1 p mrs) (e + Z.pos p)
    /\ 0 <= shr_m (SpecFloat.iter_pos shr_1 p mrs).
Proof.
  induction p as [p IH|p IH|]; intros x mrs e Hm H; simpl.
  - destruct (shr_1_located x mrs e Hm H) as [H1 M1].
    destruct (IH x _ _ M1 H1) as [H2 M2].
    destruct (IH x _ _ M2 H2) as [H3 M3].
    replace (e + Z.pos p~1) with (e + 1 + Z.pos p + Z.pos p) by lia. split; assumption.
  - destruct (IH x _ _ Hm H) as [H2 M2].
    destruct (IH x _ _ M2 H2) as [H3 M3].
    replace (e + Z.pos p~0) with (e + Z.pos p + Z.pos p) by lia. split; assumption.
  - apply shr_1_located; assumption.
Qed.

Lemma shr_located (x : R) (mrs : shr_record) (e n : Z) :
  0 <= shr_m mrs -> located x mrs e ->
  located x (fst (shr mrs e n)) (snd (shr mrs e n))
  /\ 0 <= shr_m (fst (shr mrs e n))
  /\ snd (shr mrs e n) = Z.max e (e + n)
  /\ (n <= 0 -> fst (shr mrs e n) = mrs).
Proof.
  intros Hm H. unfold shr. destruct n as [|p|p]; cbn [fst snd].
  - split; [exact H|]. split; [exact Hm|]. split; [lia | reflexivity].
  - destruct (iter_shr_1_located p x mrs e Hm H) as [H1 M1].
    split; [exact H1|]. split; [exact M1|]. split; lia.
  - split; [exact H|]. split; [exact Hm|]. split; [lia | reflexivity].
Qed.

Lemma record_located (x : R) (m e : Z) (l : location) :
  (scaled m e <= x < scaled (m + 1) e)%R ->
  (l = loc_Exact <-> x = scaled m e) ->
  located x (shr_record_of_loc m l) e /\ shr_m (shr_record_of_loc m l) = m.
Proof.
  intros B X. unfold located.
  destruct l as [|[]]; simpl; (split; [|reflexivity]); (split; [exact B|]);
    (split; [intros E; try discriminate E; apply X; reflexivity
            | intros E; apply X in E; try discriminate E; reflexivity]).
Qed.

Lemma round_nearest_even_bounds (mrs : shr_record) :
  let mr := round_nearest_even (shr_m mrs) (loc_of_shr_record mrs) in
  shr_m mrs <= mr <= shr_m mrs + 1
  /\ (shr_r mrs || shr_s mrs = false -> mr = shr_m mrs).
Proof.
  destruct mrs as [m [] []]; simpl; try (split; [lia | intros; try discriminate; reflexivity]).
  destruct (Z.even m); split; try lia; discriminate.
Qed.

(** *** Rounding below a representable bound *)

Lemma fexp_eq (z : Z) : fexp prec emax z = Z.max (z - 53) (-1074).
Proof. reflexivity. Qed.

Lemma canonical_fexp (m : positive) (e : Z) :
  canonical m e -> e = Z.max (Z.pos (digits2_pos m) + e - 53) (-1074).
Proof.
  unfold canonical, canonical_mantissa. rewrite fexp_eq. intros H.
  apply Z.eqb_eq in H. lia.
Qed.

(** The rounding of a real [x] that is at most a number [mB * 2^eB] is at
    most that number: [mx], [ex] and [lx] locate [x], as after an exact
    product ([lx] exact) or a quotient with its remainder. When bits are
    lost the bound is a multiple of the unit the mantissa is rounded to, so
    that rounding up does not pass it. *)
Lemma round_aux_upper (sx : bool) (mx ex : Z) (lx : location) (x : R)
    (mB : positive) (eB : Z) :
  0 <= mx ->
  (scaled mx ex <= x < scaled (mx + 1) ex)%R ->
  (lx = loc_Exact <-> x = scaled mx ex) ->
  (lx <> loc_Exact -> ex <= fexp prec emax (Zdigits2 mx + ex)) ->
  canonical mB eB ->
  (x <= scaled (Z.pos mB) eB)%R ->
  (scaled (Z.pos mB) eB < pow2 (emax - prec + 1))%R ->
  binary_round_aux prec emax sx mx ex lx = S754_zero sx
  \/ exists m e, binary_round_aux prec emax sx mx ex lx = S754_finite sx m e
                 /\ (scaled (Z.pos m) e <= scaled (Z.pos mB) eB)%R.
Proof.
  intros Hm Hx Hl Ha Hc HB Hsmall.
  unfold binary_round_aux, shr_fexp.
  destruct (record_located x mx ex lx Hx Hl) as [L0 M0].
  set (g := fexp prec emax (Zdigits2 mx + ex)) in *.
  assert (Hm0 : 0 <= shr_m (shr_record_of_loc mx lx)) by (rewrite M0; exact Hm).
  pose proof (shr_located x (shr_record_of_loc mx lx) ex (g - ex) Hm0 L0) as (L1 & M1 & E1 & N1).
  destruct (shr (shr_record_of_loc mx lx) ex (g - ex)) as [mrs1 e1]. cbn [fst snd] in *.
  pose proof (round_nearest_even_bounds mrs1) as Rb. cbv zeta in Rb.
  destruct Rb as [Rb Rx].
  set (mr := round_nearest_even (shr_m mrs1) (loc_of_shr_record mrs1)) in *.
  pose proof (canonical_fexp mB eB Hc) as HeB.
  assert (Hmr : (scaled mr e1 <= scaled (Z.pos mB) eB)%R).
  { destruct L1 as [[L1a L1b] X1].
    destruct (shr_r mrs1 || shr_s mrs1) eqn:Ex.
    - assert (Hne : x <> scaled (shr_m mrs1) e1)
        by (intros E; apply X1 in E; discriminate E).
      assert (Hex : ex <= g).
      { destruct (Z_le_gt_dec ex g) as [|G]; [assumption|]. exfalso.
        destruct lx as [|c].
        - rewrite (N1 ltac:(lia)) in Ex. discriminate Ex.
        - assert (ex <= g) by (apply Ha; discriminate). lia. }
      assert (He1 : e1 = g) by lia.
      assert (Hg : g <= eB).
      { unfold g. rewrite fexp_eq. destruct mx as [|p|p]; [| |lia].
        - unfold g in Hex. rewrite fexp_eq in Hex. simpl Zdigits2 in *. lia.
        - simpl Zdigits2. pose proof (scaled_digits p ex) as [D1 _].
          pose proof (scaled_digits mB eB) as [_ D2].
          assert (D : (pow2 (Z.pos (digits2_pos p) - 1 + ex)
                       < pow2 (Z.pos (digits2_pos mB) + eB))%R) by lra.
          apply pow2_lt_inv in D. lia. }
      set (k := Z.pos mB * 2 ^ (eB - e1)).
      assert (Hk : scaled k e1 = scaled (Z.pos mB) eB).
      { unfold k. rewrite scaled_shift by lia. f_equal. lia. }
      rewrite <- Hk in *.
      assert (Hlt : shr_m mrs1 < k) by (apply (scaled_lt_inv _ _ e1); lra).
      apply scaled_le. lia.
    - rewrite (Rx eq_refl). destruct X1 as [X1 _]. rewrite <- (X1 eq_refl). exact HB. }
  assert (Hmr0 : 0 <= mr) by lia.
  assert (L2 : located (scaled mr e1) (shr_record_of_loc mr loc_Exact) e1).
  { apply record_located; [|split; reflexivity].
    split; [lra|]. apply Rlt_le_trans with (scaled mr e1 + scaled 1 e1)%R.
    - pose proof (scaled_1_pos e1). lra.
    - rewrite <- scaled_plus. lra. }
  pose proof (shr_located _ (shr_record_of_loc mr loc_Exact) e1
                (fexp prec emax (Zdigits2 mr + e1) - e1) Hmr0 L2) as (L3 & M3 & E3 & _).
  destruct (shr (shr_record_of_loc mr loc_Exact) e1 _) as [mrs2 e2]. cbn [fst snd] in *.
  destruct L3 as [[L3 _] _].
  destruct (shr_m mrs2) as [|m|m]; [left; reflexivity | | lia].
  right. destruct (Z.leb_spec e2 (emax - prec)) as [Le|Gt].
  - exists m, e2. split; [reflexivity | lra].
  - exfalso. pose proof (scaled_digits m e2) as [D1 _].
    assert (P : (pow2 (emax - prec + 1) <= pow2 (Z.pos (digits2_pos m) - 1 + e2))%R)
      by (apply pow2_le; lia).
    lra.
Qed.

(** *** The order of numbers and the order of their values *)

Lemma canonical_digits (m : positive) (e : Z) :
  canonical m e ->
  Z.pos (digits2_pos m) <= 53 /\ -1074 <= e /\ (-1074 < e -> Z.pos (digits2_pos m) = 53).
Proof. intros H. apply canonical_fexp in H. lia. Qed.

(** Canonical representations are ordered by exponent, then mantissa. *)
Lemma canonical_le_lex (m : positive) (e : Z) (mB : positive) (eB : Z) :
  canonical m e -> canonical mB eB ->
  (scaled (Z.pos m) e <= scaled (Z.pos mB) eB)%R
  <-> (e < eB \/ (e = eB /\ (m <= mB)%positive)).
Proof.
  intros C CB.
  destruct (canonical_digits m e C) as (D1 & D2 & D3).
  destruct (canonical_digits mB eB CB) as (B1 & B2 & B3).
  pose proof (scaled_digits m e) as [L U].
  pose proof (scaled_digits mB eB) as [LB UB].
  split.
  - intros H. destruct (Z.lt_trichotomy e eB) as [Lt|[Eq|Gt]]; [left; exact Lt | |].
    + right. split; [exact Eq|]. subst eB. apply scaled_le_inv in H. lia.
    + exfalso. rewrite (D3 ltac:(lia)) in L.
      assert (P : (pow2 (Z.pos (digits2_pos mB) + eB) <= pow2 (53 - 1 + e))%R)
        by (apply pow2_le; lia).
      lra.
  - intros [Lt|[-> Le]].
    + rewrite (B3 ltac:(lia)) in LB.
      assert (P : (pow2 (Z.pos (digits2_pos m) + e) <= pow2 (53 - 1 + eB))%R)
        by (apply pow2_le; lia).
      lra.
    + apply scaled_le. lia.
Qed.

Lemma SFleb_finite (m : positive) (e : Z) (mB : positive) (eB : Z) :
  SFleb (S754_finite false m e) (S754_finite false mB eB) = true
  <-> (e < eB \/ (e = eB /\ (m <= mB)%positive)).
Proof.
  unfold SFleb, SFcompare. destruct (Z.compare_spec e eB) as [He|He|He].
  - change (Pos.compare_cont Datatypes.Eq m mB) with (m ?= mB)%positive.
    destruct (Pos.compare_spec m mB) as [H'|H'|H']; split; intros H;
      try discriminate H; try reflexivity; try (right; split; [assumption | lia]);
      destruct H as [H|[_ H]]; lia.
  - split; [intros _; left; exact He | reflexivity].
  - split; [discriminate | intros [H|[H _]]; lia].
Qed.

Lemma valid_canonical (x : float) (s : bool) (m : positive) (e : Z) :
  Prim2SF x = S754_finite s m e -> canonical m e.
Proof.
  intros H. pose proof (Prim2SF_valid x) as V. rewrite H in V. simpl in V.
  apply andb_prop in V as [V _]. exact V.
Qed.

Lemma posLe_magLe (x : float) (b : R) : posLe x b -> magLe x b.
Proof. unfold posLe, magLe. destruct (Prim2SF x) as [| | |[] m e]; tauto. Qed.

Lemma abs_leb_magLe (x B : float) (mB : positive) (eB : Z) :
  Prim2SF B = S754_finite false mB eB ->
  (abs x <=? B)%float = true <-> magLe x (scaled (Z.pos mB) eB).
Proof.
  intros HB. rewrite leb_spec, abs_spec, HB. unfold magLe.
  pose proof (valid_canonical B _ _ _ HB) as CB.
  destruct (Prim2SF x) as [s|s| |s m e] eqn:E; simpl SFabs.
  - split; [trivial | reflexivity].
  - split; [discriminate | contradiction].
  - split; [discriminate | contradiction].
  - rewrite SFleb_finite. symmetry. apply canonical_le_lex; [|exact CB].
    exact (valid_canonical x _ _ _ E).
Qed.

Lemma range_posLe (x B : float) (mB : positive) (eB : Z) :
  Prim2SF B = S754_finite false mB eB ->
  (0 <=? x)%float = true -> (x <=? B)%float = true ->
  posLe x (scaled (Z.pos mB) eB).
Proof.
  intros HB. rewrite !leb_spec, HB. unfold posLe.
  pose proof (valid_canonical B _ _ _ HB) as CB.
  replace (Prim2SF 0) with (S754_zero false) by (vm_compute; reflexivity).
  destruct (Prim2SF x) as [s|s| |s m e] eqn:E.
  - trivial.
  - destruct s; discriminate.
  - discriminate.
  - destruct s; [discriminate|]. intros _ H. apply SFleb_finite in H.
    apply canonical_le_lex; [exact (valid_canonical x _ _ _ E) | exact CB | exact H].
Qed.

Lemma scaled_pos (m : positive) (e : Z) : (0 < scaled (Z.pos m) e)%R.
Proof.
  unfold scaled. pose proof (pow2_pos e).
  assert (0 < IZR (Z.pos m))%R by (apply IZR_lt; lia). nra.
Qed.

Lemma exact_located (m e : Z) :
  (scaled m e <= scaled m e < scaled (m + 1) e)%R.
Proof. rewrite scaled_plus. pose proof (scaled_1_pos e). lra. Qed.

(** *** Products *)

Lemma mul_bound (sx sy : bool) (mx my : positive) (ex ey : Z) (bx by' : R)
    (mB : positive) (eB : Z) :
  (scaled (Z.pos mx) ex <= bx)%R -> (scaled (Z.pos my) ey <= by')%R ->
  (bx * by' <= scaled (Z.pos mB) eB)%R ->
  canonical mB eB -> small mB eB ->
  let r := SFmul prec emax (S754_finite sx mx ex) (S754_finite sy my ey) in
  r = S754_zero (xorb sx sy)
  \/ exists m e, r = S754_finite (xorb sx sy) m e
                 /\ (scaled (Z.pos m) e <= scaled (Z.pos mB) eB)%R.
Proof.
  intros Hx Hy Hb C S. cbv zeta. unfold SFmul.
  apply (round_aux_upper _ _ _ _ (scaled (Z.pos (mx * my)) (ex + ey))).
  - lia.
  - apply exact_located.
  - split; reflexivity.
  - intros H. contradiction.
  - exact C.
  - rewrite Pos2Z.inj_mul, <- scaled_mul.
    pose proof (scaled_pos mx ex). pose proof (scaled_pos my ey). nra.
  - exact S.
Qed.

Lemma mul_magLe (x y : float) (bx by' : R) (B : float) (mB : positive) (eB : Z) :
  magLe x bx -> magLe y by' ->
  Prim2SF B = S754_finite false mB eB -> small mB eB ->
  (bx * by' <= scaled (Z.pos mB) eB)%R ->
  magLe (x * y) (scaled (Z.pos mB) eB).
Proof.
  unfold magLe. intros Hx Hy HB S Hb. rewrite mul_spec.
  pose proof (valid_canonical B _ _ _ HB) as C.
  destruct (Prim2SF x) as [sx|sx| |sx mx ex]; try contradiction;
    destruct (Prim2SF y) as [sy|sy| |sy my ey]; try contradiction; try exact I.
  destruct (mul_bound sx sy mx my ex ey bx by' mB eB Hx Hy Hb C S) as [E|(m & e & E & H)];
    unfold SF64mul; rewrite E; [exact I | exact H].
Qed.

Lemma mul_posLe (x y : float) (bx by' : R) (B : float) (mB : positive) (eB : Z) :
  posLe x bx -> posLe y by' ->
  Prim2SF B = S754_finite false mB eB -> small mB eB ->
  (bx * by' <= scaled (Z.pos mB) eB)%R ->
  posLe (x * y) (scaled (Z.pos mB) eB).
Proof.
  unfold posLe. intros Hx Hy HB S Hb. rewrite mul_spec.
  pose proof (valid_canonical B _ _ _ HB) as C.
  destruct (Prim2SF x) as [sx|sx| |[] mx ex]; try contradiction;
    destruct (Prim2SF y) as [sy|sy| |[] my ey]; try contradiction; try exact I.
  destruct (mul_bound false false mx my ex ey bx by' mB eB Hx Hy Hb C S)
    as [E|(m & e & E & H)];
    unfold SF64mul; rewrite E; [exact I | exact H].
Qed.

Lemma magLe_const (k : float) (s : bool) (m : positive) (e : Z) :
  Prim2SF k = S754_finite s m e -> magLe k (scaled (Z.pos m) e).
Proof. intros H. unfold magLe. rewrite H. lra. Qed.

Lemma posLe_const (k : float) (m : positive) (e : Z) :
  Prim2SF k = S754_finite false m e -> posLe k (scaled (Z.pos m) e).
Proof. intros H. unfold posLe. rewrite H. lra. Qed.

(** *** Sums and differences *)

Lemma iter_xO (d m : positive) : Z.pos (Pos.iter xO m d) = Z.pos m * 2 ^ Z.pos d.
Proof.
  induction d as [|d IH] using Pos.peano_ind.
  - simpl. lia.
  - rewrite Pos.iter_succ, Pos2Z.inj_xO, IH, Pos2Z.inj_succ, Z.pow_succ_r by lia. lia.
Qed.

Lemma shl_align_value (mx : positive) (ex ex' : Z) :
  scaled (Z.pos (fst (shl_align mx ex ex'))) (snd (shl_align mx ex ex'))
  = scaled (Z.pos mx) ex
  /\ (ex' <= ex -> snd (shl_align mx ex ex') = ex').
Proof.
  unfold shl_align. destruct (ex' - ex) as [|d|d] eqn:E; cbn [fst snd].
  - split; [reflexivity | lia].
  - split; [reflexivity | lia].
  - split; [|reflexivity]. rewrite iter_xO, scaled_shift by lia. f_equal. lia.
Qed.

Lemma binary_round_upper (sx : bool) (mx : positive) (ex : Z) (mB : positive) (eB : Z) :
  canonical mB eB -> small mB eB ->
  (scaled (Z.pos mx) ex <= scaled (Z.pos mB) eB)%R ->
  binary_round prec emax sx mx ex = S754_zero sx
  \/ exists m e, binary_round prec emax sx mx ex = S754_finite sx m e
                 /\ (scaled (Z.pos m) e <= scaled (Z.pos mB) eB)%R.
Proof.
  intros C S H. unfold binary_round.
  destruct (shl_align_value mx ex (fexp prec emax (Z.pos (digits2_pos mx) + ex))) as [V _].
  destruct (shl_align mx ex _) as [mz ez]. cbn [fst snd] in V.
  apply (round_aux_upper _ _ _ _ (scaled (Z.pos mz) ez)).
  - lia.
  - apply exact_located.
  - split; reflexivity.
  - intros N. contradiction.
  - exact C.
  - rewrite V. exact H.
  - exact S.
Qed.

Lemma binary_normalize_upper (m e : Z) (szero : bool) (mB : positive) (eB : Z) :
  canonical mB eB -> small mB eB ->
  (scaled (Z.abs m) e <= scaled (Z.pos mB) eB)%R ->
  match binary_normalize prec emax m e szero with
  | S754_zero _ => True
  | S754_finite _ m' e' => (scaled (Z.pos m') e' <= scaled (Z.pos mB) eB)%R
  | _ => False
  end.
Proof.
  intros C S H. destruct m as [|p|p]; simpl binary_normalize; [exact I | |];
    simpl Z.abs in H.
  - destruct (binary_round_upper false p e mB eB C S H) as [E|(m' & e' & E & H')];
      rewrite E; [exact I | exact H'].
  - destruct (binary_round_upper true p e mB eB C S H) as [E|(m' & e' & E & H')];
      rewrite E; [exact I | exact H'].
Qed.

Lemma sub_magLe (a b : float) (A : R) (mb : positive) (eb : Z)
    (B : float) (mB : positive) (eB : Z) :
  posLe a A -> Prim2SF b = S754_finite false mb eb ->
  Prim2SF B = S754_finite false mB eB -> small mB eB ->
  (scaled (Z.pos mb) eb <= scaled (Z.pos mB) eB)%R ->
  (A - scaled (Z.pos mb) eb <= scaled (Z.pos mB) eB)%R ->
  magLe (a - b) (scaled (Z.pos mB) eB).
Proof.
  unfold posLe, magLe. intros Ha Hb HB S H1 H2. rewrite sub_spec, Hb.
  pose proof (valid_canonical B _ _ _ HB) as C.
  destruct (Prim2SF a) as [s|s| |[] ma ea]; try contradiction.
  - exact H1.
  - unfold SF64sub, SFsub.
    destruct (shl_align_value ma ea (Z.min ea eb)) as [Va Ea].
    destruct (shl_align_value mb eb (Z.min ea eb)) as [Vb Eb].
    rewrite (Ea ltac:(lia)) in Va. rewrite (Eb ltac:(lia)) in Vb.
    apply binary_normalize_upper; [exact C | exact S|].
    unfold cond_Zopp.
    set (a' := Z.pos (fst (shl_align ma ea (Z.min ea eb)))) in *.
    set (b' := Z.pos (fst (shl_align mb eb (Z.min ea eb)))) in *.
    assert (E : scaled (Z.abs (a' - b')) (Z.min ea eb)
                = Rabs (scaled a' (Z.min ea eb) - scaled b' (Z.min ea eb))).
    { unfold scaled. rewrite abs_IZR, minus_IZR.
      rewrite <- (Rabs_pos_eq (pow2 (Z.min ea eb))) at 1
        by (left; apply pow2_pos).
      rewrite <- Rabs_mult. f_equal. ring. }
    rewrite E, Va, Vb. pose proof (scaled_pos ma ea). apply Rabs_le. lra.
Qed.

(** *** Quotients

    The integer quotient and its remainder locate the exact quotient, at an
    exponent that leaves the quotient enough digits. *)

Lemma new_location_exact (nb_steps k : Z) :
  new_location nb_steps k = loc_Exact <-> k = 0.
Proof.
  unfold new_location, new_location_even, new_location_odd.
  destruct (Z.even nb_steps); destruct (Z.eqb_spec k 0) as [->|N];
    split; intros H; try reflexivity; try discriminate H; contradiction.
Qed.

Lemma pos_digits_ge (q : Z) : 2 ^ 52 <= q -> 53 <= Zdigits2 q.
Proof.
  intros H. destruct q as [|p|p]; try (pose proof (Z.pow_pos_nonneg 2 52); lia).
  simpl. destruct (digits2_bounds p) as [_ U].
  assert (L : 2 ^ 52 < 2 ^ Z.pos (digits2_pos p)) by lia.
  apply Z.pow_lt_mono_r_iff in L; lia.
Qed.

Lemma div_core_spec (m1 m2 : positive) (e1 e2 : Z) :
  canonical m1 e1 ->
  let x := (scaled (Z.pos m1) e1 / scaled (Z.pos m2) e2)%R in
  let '(q, e', l) := SFdiv_core_binary prec emax (Z.pos m1) e1 (Z.pos m2) e2 in
  0 <= q
  /\ (scaled q e' <= x < scaled (q + 1) e')%R
  /\ (l = loc_Exact <-> x = scaled q e')
  /\ e' <= fexp prec emax (Zdigits2 q + e').
Proof.
  intros C x. unfold SFdiv_core_binary.
  destruct (canonical_digits m1 e1 C) as (D1 & _ & _).
  set (d1 := Zdigits2 (Z.pos m1)) in *. set (d2 := Zdigits2 (Z.pos m2)) in *.
  assert (Hd1 : d1 = Z.pos (digits2_pos m1)) by reflexivity.
  assert (Hd2 : d2 = Z.pos (digits2_pos m2)) by reflexivity.
  set (e' := Z.min (fexp prec emax (d1 + e1 - (d2 + e2))) (e1 - e2)).
  set (s := e1 - e2 - e').
  assert (Hs : 0 <= s) by (unfold s, e'; lia).
  set (m' := match s with Z.pos _ => Z.shiftl (Z.pos m1) s | 0 => Z.pos m1 | Z.neg _ => 0 end).
  assert (Hm' : m' = Z.pos m1 * 2 ^ s).
  { unfold m'. destruct s as [|p|p] eqn:Es; [simpl; lia | | lia].
    apply Z.shiftl_mul_pow2. lia. }
  pose proof (Z_div_mod m' (Z.pos m2) ltac:(lia)) as DM.
  destruct (Z.div_eucl m' (Z.pos m2)) as [q r]. destruct DM as [DM Hr].
  assert (P2 : 0 < 2 ^ s) by (apply Z.pow_pos_nonneg; lia).
  assert (Hq : 0 <= q) by nia.
  assert (Ex : x = (IZR m' / IZR (Z.pos m2) * pow2 e')%R).
  { unfold x, scaled. rewrite Hm', mult_IZR, <- (pow2_Z s Hs).
    replace e1 with (s + e' + e2) by (unfold s; lia). rewrite !pow2_add.
    pose proof (pow2_pos e2). pose proof (pow2_pos e').
    assert (0 < IZR (Z.pos m2))%R by (apply IZR_lt; lia).
    field. split; lra. }
  assert (Pm2 : (0 < IZR (Z.pos m2))%R) by (apply IZR_lt; lia).
  assert (Pe : (0 < pow2 e')%R) by apply pow2_pos.
  assert (Er : (IZR m' = IZR (Z.pos m2) * IZR q + IZR r)%R)
    by (rewrite DM, plus_IZR, mult_IZR; reflexivity).
  assert (Hr0 : (0 <= IZR r)%R) by (apply IZR_le; lia).
  assert (Hr1 : (IZR r < IZR (Z.pos m2))%R) by (apply IZR_lt; lia).
  assert (Ex' : x = ((IZR q + IZR r / IZR (Z.pos m2)) * pow2 e')%R).
  { rewrite Ex, Er. field. lra. }
  assert (F0 : (0 <= IZR r / IZR (Z.pos m2))%R).
  { apply Rmult_le_pos; [exact Hr0|]. left. apply Rinv_0_lt_compat, Pm2. }
  assert (F1 : (IZR r / IZR (Z.pos m2) < 1)%R).
  { apply (Rmult_lt_reg_r (IZR (Z.pos m2))); [exact Pm2|].
    unfold Rdiv. rewrite Rmult_assoc, Rinv_l by lra. lra. }
  split; [exact Hq|]. split; [|split].
  - rewrite Ex'. unfold scaled. rewrite plus_IZR. split; nra.
  - rewrite new_location_exact. split.
    + intros ->. rewrite Ex'. unfold scaled, Rdiv. rewrite Rmult_0_l. ring.
    + intros H. rewrite Ex' in H. unfold scaled in H.
      assert (Z : (IZR r / IZR (Z.pos m2) = 0)%R) by nra.
      apply eq_IZR. apply (Rmult_eq_reg_r (/ IZR (Z.pos m2))).
      * unfold Rdiv in Z. rewrite Z. ring.
      * apply Rinv_neq_0_compat. lra.
  - rewrite fexp_eq. destruct (Z_le_gt_dec e' (-1074)) as [|G]; [lia|].
    assert (He' : e' = d1 + e1 - (d2 + e2) - 53).
    { unfold e' in *. rewrite fexp_eq in *.
      pose proof (Pos2Z.is_pos (digits2_pos m2)). lia. }
    assert (Es : s = 53 - d1 + d2) by (unfold s; lia).
    destruct (digits2_bounds m1) as [L1 _]. destruct (digits2_bounds m2) as [_ U2].
    rewrite <- Hd1 in L1. rewrite <- Hd2 in U2.
    assert (Hbig : 2 ^ 52 * 2 ^ d2 <= m').
    { rewrite Hm', Es. rewrite <- Z.pow_add_r by lia.
      replace (52 + d2) with ((d1 - 1) + (53 - d1 + d2)) by lia.
      rewrite Z.pow_add_r by lia.
      apply Z.mul_le_mono_nonneg_r; [apply Z.pow_nonneg; lia | exact L1]. }
    assert (Hq52 : 2 ^ 52 <= q).
    { destruct (Z_le_gt_dec (2 ^ 52) q) as [|G']; [assumption|]. exfalso.
      assert ((q + 1) * Z.pos m2 <= 2 ^ 52 * Z.pos m2)
        by (apply Z.mul_le_mono_nonneg_r; lia).
      assert (2 ^ 52 * Z.pos m2 < 2 ^ 52 * 2 ^ d2)
        by (apply Z.mul_lt_mono_pos_l; [apply Z.pow_pos_nonneg; lia | exact U2]).
      lia. }
    pose proof (pos_digits_ge q Hq52). lia.
Qed.

Lemma div_magLe (x c : float) (bx : R) (sc : bool) (mc : positive) (ec : Z)
    (B : float) (mB : positive) (eB : Z) :
  magLe x bx -> Prim2SF c = S754_finite sc mc ec ->
  Prim2SF B = S754_finite false mB eB -> small mB eB ->
  (bx <= scaled (Z.pos mc) ec * scaled (Z.pos mB) eB)%R ->
  magLe (x / c) (scaled (Z.pos mB) eB).
Proof.
  unfold magLe. intros Hx Hc HB S Hb. rewrite div_spec, Hc.
  pose proof (valid_canonical B _ _ _ HB) as C.
  destruct (Prim2SF x) as [sx|sx| |sx mx ex] eqn:E; try contradiction; [exact I|].
  unfold SF64div, SFdiv.
  pose proof (div_core_spec mx mc ex ec (valid_canonical x _ _ _ E)) as D. cbv zeta in D.
  destruct (SFdiv_core_binary prec emax (Z.pos mx) ex (Z.pos mc) ec) as [[q e'] l].
  destruct D as (Hq & Hx' & Hl & Ha).
  assert (Hle : (scaled (Z.pos mx) ex / scaled (Z.pos mc) ec <= scaled (Z.pos mB) eB)%R).
  { pose proof (scaled_pos mc ec) as Pc.
    apply (Rmult_le_reg_r (scaled (Z.pos mc) ec)); [exact Pc|].
    unfold Rdiv. rewrite Rmult_assoc, Rinv_l by lra. lra. }
  destruct (round_aux_upper (xorb sx sc) q e' l _ mB eB Hq Hx' Hl (fun _ => Ha) C Hle S)
    as [R|(m & e & R & H)]; rewrite R; [exact I | exact H].
Qed.

(** *** Products and quotients of numbers are not NaN *)

Lemma mul_not_nan (x k : float) (s : bool) (m : positive) (e : Z) :
  Prim2SF k = S754_finite s m e ->
  PrimFloat.is_nan x = false -> PrimFloat.is_nan (x * k) = false.
Proof.
  intros Hk Hx. destruct (PrimFloat.is_nan (x * k)) eqn:N; [|reflexivity].
  apply Prim2SF_nan in N. rewrite mul_spec, Hk in N. exfalso.
  destruct (Prim2SF x) as [sx|sx| |sx mx ex] eqn:E; try discriminate N.
  - apply Prim2SF_nan in E. congruence.
  - unfold SF64mul, SFmul in N. revert N. apply binary_round_aux_not_nan. lia.
Qed.

Lemma div_not_nan (x k : float) (s : bool) (m : positive) (e : Z) :
  Prim2SF k = S754_finite s m e ->
  PrimFloat.is_nan x = false -> PrimFloat.is_nan (x / k) = false.
Proof.
  intros Hk Hx. destruct (PrimFloat.is_nan (x / k)) eqn:N; [|reflexivity].
  apply Prim2SF_nan in N. rewrite div_spec, Hk in N. exfalso.
  destruct (Prim2SF x) as [sx|sx| |sx mx ex] eqn:E; try discriminate N.
  - apply Prim2SF_nan in E. congruence.
  - unfold SF64div, SFdiv in N.
    pose proof (div_core_spec mx m ex e (valid_canonical x _ _ _ E)) as D. cbv zeta in D.
    destruct (SFdiv_core_binary prec emax (Z.pos mx) ex (Z.pos m) e) as [[q e'] l].
    destruct D as (Hq & _). revert N. apply binary_round_aux_not_nan. exact Hq.
Qed.

(** *** Comparing scaled constants by computation *)

Lemma scaled_le_Z (m e m' e' : Z) :
  (if e <=? e' then m <=? m' * 2 ^ (e' - e) else m * 2 ^ (e - e') <=? m') = true ->
  (scaled m e <= scaled m' e')%R.
Proof.
  destruct (Z.leb_spec e e') as [L|G]; intros H; apply Z.leb_le in H.
  - replace e' with (e + (e' - e)) by lia. rewrite <- scaled_shift by lia.
    apply scaled_le, H.
  - replace e with (e' + (e - e')) by lia. rewrite <- scaled_shift by lia.
    apply scaled_le, H.
Qed.

Lemma scaled_lt_pow2 (m e k : Z) :
  (if e <=? k then m <? 2 ^ (k - e) else false) = true -> (scaled m e < pow2 k)%R.
Proof.
  destruct (Z.leb_spec e k) as [L|G]; [|discriminate]. intros H. apply Z.ltb_lt in H.
  replace k with (e + (k - e)) by lia. rewrite pow2_add, (pow2_Z (k - e)) by lia.
  unfold scaled. apply IZR_lt in H. pose proof (pow2_pos e). nra.
Qed.

Lemma leb_number (x y : float) :
  (x <=? y)%float = true -> PrimFloat.is_nan y = false.
Proof.
  rewrite leb_spec. intros H. destruct (PrimFloat.is_nan y) eqn:N; [|reflexivity].
  apply Prim2SF_nan in N. rewrite N in H. destruct (Prim2SF x); discriminate H.
Qed.

End Rounding.

(** ** Value parser *)

Module ValueParser.
Import JS App Notions Examples.

(** A finite number is returned as it is. *)
Lemma parseNumericValue_finite (n : float) :
  isFiniteNum n = true -> parseNumericValue (Num n) = Num n.
Proof.
  intros H. unfold parseNumericValue. simpl. rewrite H. reflexivity.
Qed.

(** The output is [null] or a finite number. *)
Lemma parseNumericValue_range (value : Scalar) :
  parseNumericValue value = Null
  \/ exists n, parseNumericValue value = Num n /\ isFiniteNum n = true.
Proof.
  unfold parseNumericValue.
  destruct (nullish value); [left; reflexivity|].
  destruct (is_number value && Number_isFinite value) eqn:E.
  - apply andb_prop in E as [_ E]. destruct value; simpl in E; try discriminate.
    right. eauto.
  - destruct (isFiniteNum _) eqn:F; [right; eauto | left; reflexivity].
Qed.

(** Without a character of a number left, the cleaned string is empty and
    [Number('')] is [0]. *)
Lemma parseNumericValue_no_numeric_char (s : string) :
  filter_chars numeric_char s = EmptyString -> parseNumericValue (Str s) = Num 0%float.
Proof.
  intros H. unfold parseNumericValue. simpl. rewrite H. reflexivity.
Qed.

(** C1: the value parser on the documented vectors. ["$1,234.56"] gives
    1234.56, ["12.5%"] gives 12.5 and [null] gives [null]; ["abc"] is
    cleaned to the empty string, which [Number] reads as [0], so the parser
    returns the number 0 there and not [null]. *)
Theorem parseNumericValue_vectors :
  parseNumericValue (Str "$1,234.56") = Num 1234.56%float
  /\ parseNumericValue (Str "12.5%") = Num 12.5%float
  /\ parseNumericValue Null = Null
  /\ parseNumericValue (Str "abc") = Num 0%float
  /\ parseNumericValue (Str "abc") <> Null.
Proof.
  repeat split; try (vm_compute; reflexivity).
  vm_compute. discriminate.
Qed.

End ValueParser.

(** ** Ray casting *)

Module RayCasting.
Import JS App Notions Examples FloatFacts.

Section Loop.
Variables (lng lat : float) (districtCoords : list (float * float)).

(** No edge has its end points on different sides of the latitude. *)
Hypothesis same_side : forall v w,
  In v districtCoords -> In w districtCoords ->
  xorb (gt (snd v) lat) (gt (snd w) lat) = false.

Let step (st : bool * nat) (i : nat) : bool * nat :=
  let '(inside, j) := st in
  let '(xi, yi) := nth i districtCoords (nan, nan) in
  let '(xj, yj) := nth j districtCoords (nan, nan) in
  let intersect :=
    xorb (gt yi lat) (gt yj lat)
    && lt lng ((xj - xi) * (lat - yi) / (yj - yi) + xi)%float in
  (if intersect then negb inside else inside, i).

Lemma step_keeps_outside (i j : nat) :
  (i < length districtCoords)%nat -> (j < length districtCoords)%nat ->
  step (false, j) i = (false, i).
Proof.
  intros Hi Hj. unfold step.
  pose proof (nth_In districtCoords (nan, nan) Hi) as Ii.
  pose proof (nth_In districtCoords (nan, nan) Hj) as Ij.
  destruct (nth i districtCoords (nan, nan)) as [xi yi].
  destruct (nth j districtCoords (nan, nan)) as [xj yj].
  pose proof (same_side _ _ Ii Ij) as S. simpl in S. rewrite S. reflexivity.
Qed.

Lemma loop_keeps_outside (indices : list nat) :
  forall j, List.Forall (fun i => (i < length districtCoords)%nat) indices ->
  (j < length districtCoords)%nat ->
  fst (fold_left step indices (false, j)) = false.
Proof.
  induction indices as [|i rest IH]; intros j Hall Hj; [reflexivity|].
  inversion Hall; subst.
  change (fold_left step (i :: rest) (false, j))
    with (fold_left step rest (step (false, j) i)).
  rewrite step_keeps_outside by assumption. apply IH; assumption.
Qed.

Lemma isPointInDistrict_same_side : isPointInDistrict (lng, lat) districtCoords = false.
Proof.
  unfold isPointInDistrict. fold step.
  destruct (Nat.eq_dec (length districtCoords) 0%nat) as [E|NZ].
  - rewrite E. reflexivity.
  - apply loop_keeps_outside.
    + apply List.Forall_forall. intros i Hi. apply in_seq in Hi. lia.
    + lia.
Qed.
End Loop.

(** C10: a query point whose latitude is strictly above the latitude of
    every vertex, or strictly below the latitude of every vertex, is
    classified as outside by [isPointInDistrict], whatever the polygon. *)
Theorem isPointInDistrict_outside_latitude_range
    (lng lat : float) (districtCoords : list (float * float)) :
  forallb (fun v => gt lat (snd v)) districtCoords = true
  \/ forallb (fun v => lt lat (snd v)) districtCoords = true ->
  isPointInDistrict (lng, lat) districtCoords = false.
Proof.
  intros H. apply isPointInDistrict_same_side. intros v w Hv Hw.
  destruct H as [H|H]; rewrite forallb_forall in H;
    pose proof (H v Hv) as Pv; pose proof (H w Hw) as Pw; unfold gt, lt in *.
  - rewrite (ltb_asym _ _ Pv), (ltb_asym _ _ Pw). reflexivity.
  - rewrite Pv, Pw. reflexivity.
Qed.

Lemma isPointInDistrict_outside_latitude_range_witness :
  (forallb (fun v => gt 2 (snd v)) unitSquare = true
   \/ forallb (fun v => lt 2 (snd v)) unitSquare = true)
  /\ isPointInDistrict (0.5, 2)%float unitSquare = false.
Proof.
  split.
  - left. vm_compute. reflexivity.
  - apply (isPointInDistrict_outside_latitude_range 0.5 2 unitSquare).
    left. vm_compute. reflexivity.
Defined.

End RayCasting.

(** ** Coordinate normaliser *)

Module Normaliser.
Import JS App Notions Examples FloatFacts Rounding.

(** Induction on nested arrays, with the hypothesis on every element. *)
Lemma Json_nested_ind (P : Json -> Prop) :
  (forall v, P (JVal v)) ->
  (forall l, List.Forall P l -> P (JArr l)) ->
  forall j, P j.
Proof.
  intros Hv Ha. fix IH 1. intros [v|l]; [apply Hv|].
  apply Ha. induction l as [|a l IHl]; constructor; [apply IH | exact IHl].
Qed.

Lemma isPair_numbers (l : list Json) :
  isPair l = match l with
             | a :: b :: _ => isNumber a && isNumber b
             | _ => false
             end.
Proof. destruct l as [|[[]|] [|[[]|] ?]]; reflexivity. Qed.

Section Transform.
Variable host : MathHost.

Lemma transformToWgs84_array (l : list Json) :
  transformToWgs84 host (JArr l) =
  if isPair l then toWgs84 host (JArr l) else JArr (List.map (transformToWgs84 host) l).
Proof. destruct l as [|[[]|] [|[[]|] ?]]; reflexivity. Qed.

Lemma traverse_array (l : list Json) :
  traverse (JArr l) = if isPair l then [JArr l] else List.flat_map traverse l.
Proof. destruct l as [|[[]|] [|[[]|] ?]]; reflexivity. Qed.

Lemma isNumber_transform (j : Json) :
  isNumber (transformToWgs84 host j) = isNumber j.
Proof.
  destruct j as [v|l]; [reflexivity|].
  rewrite transformToWgs84_array. destruct (isPair l); reflexivity.
Qed.

Lemma isPair_transform (l : list Json) :
  isPair (List.map (transformToWgs84 host) l) = isPair l.
Proof.
  rewrite !isPair_numbers. destruct l as [|a [|b r]]; try reflexivity.
  change (List.map (transformToWgs84 host) (a :: b :: r))
    with (transformToWgs84 host a :: transformToWgs84 host b
            :: List.map (transformToWgs84 host) r).
  cbv beta iota. rewrite !isNumber_transform. reflexivity.
Qed.

(** The walk over transformed coordinates calls back on the images of the
    arrays of the walk over the input, in the same order. *)
Lemma traverse_transformToWgs84 (j : Json) :
  traverse (transformToWgs84 host j) = List.map (toWgs84 host) (traverse j).
Proof.
  induction j as [v|l IH] using Json_nested_ind; [reflexivity|].
  rewrite transformToWgs84_array, (traverse_array l).
  destruct (isPair l) eqn:E; [reflexivity|].
  rewrite traverse_array, isPair_transform, E.
  clear E. induction IH as [|a l Ha _ IHl]; [reflexivity|].
  simpl. rewrite List.map_app, Ha, IHl. reflexivity.
Qed.

Lemma truthy_transformToWgs84 (j : Json) :
  truthy_json (transformToWgs84 host j) = truthy_json j.
Proof.
  destruct j as [v|l]; [reflexivity|].
  rewrite transformToWgs84_array. destruct (isPair l); reflexivity.
Qed.

Lemma walkCoordinates_reprojectFeature (feature : Feature) :
  walkCoordinates (geometry (reprojectFeature host feature))
  = List.map (toWgs84 host) (walkCoordinates (geometry feature)).
Proof.
  unfold reprojectFeature. destruct (geometry feature) as [g|] eqn:G.
  - simpl. rewrite truthy_transformToWgs84, traverse_transformToWgs84.
    destruct (truthy_json (coordinates g)); reflexivity.
  - rewrite G. reflexivity.
Qed.

Lemma pairOf_toWgs84 (coord : Json) : pairOf (toWgs84 host coord) = wgs84Pair host (pairOf coord).
Proof. reflexivity. Qed.

(** After a reprojection every reachable pair is the image of the pair at
    the same place in the input. *)
Lemma coordinatePairs_reprojected (fc : FeatureCollection) :
  coordinatePairs {| features := List.map (reprojectFeature host) (features fc);
                     collection_rest := collection_rest fc |}
  = List.map (wgs84Pair host) (coordinatePairs fc).
Proof.
  unfold coordinatePairs, allCoordinates. simpl.
  induction (features fc) as [|f fs IH]; [reflexivity|].
  simpl. rewrite !List.map_app, IH, walkCoordinates_reprojectFeature.
  rewrite !List.map_map. reflexivity.
Qed.
End Transform.

(** The search loop finds the first array of the walk over all features. *)
Lemma firstCoord_head (fc : FeatureCollection) :
  firstCoord (features fc) = List.hd_error (allCoordinates fc).
Proof.
  unfold allCoordinates. induction (features fc) as [|f fs IH]; [reflexivity|].
  cbn [firstCoord List.flat_map]. destruct (geometry f) as [g|]; [|exact IH].
  destruct (walkCoordinates (Some g)) as [|c cs]; [exact IH | reflexivity].
Qed.

Lemma needsReprojection_pair (coord : Json) :
  needsReprojection coord = exceedsBounds (pairOf coord).
Proof. reflexivity. Qed.

Lemma inGeographicBounds_not_exceeds (p : float * float) :
  inGeographicBounds p = true -> exceedsBounds p = false.
Proof.
  unfold inGeographicBounds, exceedsBounds, gt. intros H.
  apply andb_prop in H as [Hx Hy].
  rewrite (leb_not_gt _ _ Hx), (leb_not_gt _ _ Hy). reflexivity.
Qed.

(** The collection comes back as it is unless its first pair exceeds a bound. *)
Lemma reproject_unchanged (host : MathHost) (fc : FeatureCollection) :
  match coordinatePairs fc with
  | [] => True
  | p :: _ => exceedsBounds p = false
  end ->
  reprojectFeatureCollectionIfNeeded host fc = fc.
Proof.
  intros H. unfold reprojectFeatureCollectionIfNeeded.
  destruct (features fc) as [|f fs] eqn:E; [reflexivity|]. rewrite <- E.
  rewrite firstCoord_head. unfold coordinatePairs in H.
  destruct (allCoordinates fc) as [|c cs]; [reflexivity|].
  simpl in *. rewrite needsReprojection_pair, H. reflexivity.
Qed.

Lemma reproject_empty (host : MathHost) (rest : gmap string Json) :
  reprojectFeatureCollectionIfNeeded host {| features := []; collection_rest := rest |}
  = {| features := []; collection_rest := rest |}.
Proof. reflexivity. Qed.

Lemma reproject_without_geometry (host : MathHost) (fc : FeatureCollection) :
  List.Forall (fun feature => geometry feature = None) (features fc) ->
  reprojectFeatureCollectionIfNeeded host fc = fc.
Proof.
  intros H. apply reproject_unchanged.
  unfold coordinatePairs, allCoordinates.
  induction H as [|f fs Hf _ IH]; [exact I|].
  simpl. rewrite Hf. exact IH.
Qed.

(** C3: a collection whose every coordinate pair lies within
    [-180,180] x [-90,90] is returned unchanged by the normaliser; this covers
    the empty collection and the collection without geometry, which have no
    pair at all. *)
Theorem reproject_identity_within_bounds (host : MathHost) (fc : FeatureCollection) :
  forallb inGeographicBounds (coordinatePairs fc) = true ->
  reprojectFeatureCollectionIfNeeded host fc = fc.
Proof.
  intros H. apply reproject_unchanged.
  destruct (coordinatePairs fc) as [|p ps]; [exact I|].
  simpl in H. apply andb_prop in H as [Hp _].
  apply inGeographicBounds_not_exceeds, Hp.
Qed.

(** *** The range of the transformation *)

Lemma wgs84Pair_eq (host : MathHost) (p : float * float) :
  wgs84Pair host p
  = ((fst p / 20037508.34 * 180)%float,
     (180 / Math_PI
      * (2 * Math_atan host (Math_exp host (snd p / 20037508.34 * 180 * Math_PI / 180))
         - Math_PI / 2))%float).
Proof. reflexivity. Qed.

(** A point within the extent of the projected plane has a longitude within
    [-180, 180]: the quotient is at most 1 in magnitude, and so its product
    with 180 is at most 180. *)
Lemma longitude_bound (x : float) :
  (PrimFloat.abs x <=? 20037508.34)%float = true ->
  (PrimFloat.abs (x / 20037508.34 * 180) <=? 180)%float = true.
Proof.
  intros H.
  primSF 20037508.34%float Hc. primSF 1%float H1. primSF 180%float H180.
  apply (abs_leb_magLe x _ _ _ Hc) in H.
  apply (abs_leb_magLe _ 180%float _ _ H180).
  refine (mul_magLe _ _ _ _ _ _ _
            (div_magLe x _ _ _ _ _ 1%float _ _ H Hc H1 _ _)
            (magLe_const _ _ _ _ H180) H180 _ _).
  - apply scaled_lt_pow2. prim.
  - rewrite scaled_mul. apply scaled_le_Z. prim.
  - apply scaled_lt_pow2. prim.
  - rewrite scaled_mul. apply scaled_le_Z. prim.
Qed.

(** On a host that keeps [atan(exp u)] between 0 and [Math.PI / 2], the
    latitude of every number lies within [-90, 90]: twice the arc tangent
    is at most [Math.PI], the difference with [Math.PI / 2] is at most
    [Math.PI / 2] in magnitude, and its product with [180 / Math.PI] is at
    most 90. *)
Lemma latitude_bound (host : MathHost) (y : float) :
  hostInRange host -> PrimFloat.is_nan y = false ->
  (PrimFloat.abs
     (180 / Math_PI
      * (2 * Math_atan host (Math_exp host (y / 20037508.34 * 180 * Math_PI / 180))
         - Math_PI / 2)) <=? 90)%float = true.
Proof.
  intros Hh Hy.
  primSF 20037508.34%float Hc. primSF 180%float H180. primSF Math_PI HPI.
  primSF (Math_PI / 2)%float HP2. primSF 2%float H2. primSF (180 / Math_PI)%float Hk.
  primSF 90%float H90.
  set (u := (y / 20037508.34 * 180 * Math_PI / 180)%float).
  assert (Hu : PrimFloat.is_nan u = false).
  { unfold u. apply (div_not_nan _ _ _ _ _ H180), (mul_not_nan _ _ _ _ _ HPI),
      (mul_not_nan _ _ _ _ _ H180), (div_not_nan _ _ _ _ _ Hc), Hy. }
  destruct (Hh u Hu) as [T0 T1].
  pose proof (range_posLe _ _ _ _ HP2 T0 T1) as Ht.
  apply (abs_leb_magLe _ 90%float _ _ H90).
  refine (mul_magLe _ _ _ _ _ _ _ (magLe_const _ _ _ _ Hk)
            (sub_magLe _ _ _ _ _ (Math_PI / 2)%float _ _
               (mul_posLe _ _ _ _ Math_PI _ _ (posLe_const _ _ _ H2) Ht HPI _ _)
               HP2 HP2 _ _ _)
            H90 _ _).
  - apply scaled_lt_pow2. prim.
  - rewrite scaled_mul. apply scaled_le_Z. prim.
  - apply scaled_lt_pow2. prim.
  - lra.
  - match goal with |- (?a - ?b <= ?b)%R => enough (a <= 2 * b)%R by lra end.
    replace 2%R with (scaled 2 0) by (unfold scaled, pow2; simpl; lra).
    rewrite scaled_mul. apply scaled_le_Z. prim.
  - apply scaled_lt_pow2. prim.
  - rewrite scaled_mul. apply scaled_le_Z. prim.
Qed.

Lemma wgs84Pair_bounds (host : MathHost) (q : float * float) :
  hostInRange host -> withinExtent q = true ->
  inGeographicBounds (wgs84Pair host q) = true.
Proof.
  intros Hh Hq. apply andb_prop in Hq as [Hx Hy]. apply negb_true_iff in Hy.
  unfold inGeographicBounds. rewrite wgs84Pair_eq. cbn [fst snd].
  apply andb_true_intro. split.
  - apply longitude_bound, Hx.
  - apply latitude_bound; assumption.
Qed.

Lemma forallb_wgs84Pair (host : MathHost) (pairs : list (float * float)) :
  hostInRange host -> forallb withinExtent pairs = true ->
  forallb inGeographicBounds (List.map (wgs84Pair host) pairs) = true.
Proof.
  intros Hh. induction pairs as [|q pairs IH]; [reflexivity|].
  simpl. intros H. apply andb_prop in H as [Hq Hr].
  rewrite (wgs84Pair_bounds host q Hh Hq). exact (IH Hr).
Qed.

(** The guarded example host keeps within the range. *)
Lemma guard_range (lo hi r : float) :
  (lo <=? lo)%float = true -> (lo <=? hi)%float = true ->
  (lo <=? guard lo hi r)%float = true /\ (guard lo hi r <=? hi)%float = true.
Proof.
  intros Hl Hh. unfold guard.
  destruct (lo <=? r)%float eqn:A, (r <=? hi)%float eqn:B; simpl; split; assumption.
Qed.

Lemma guardedHost_inRange : hostInRange guardedHost.
Proof.
  intros u Hu. simpl. unfold guarded_exp. unfold isNaN in Hu. rewrite Hu.
  destruct (guard_range 0 infinity (approx_exp u)) as [E0 _]; [prim | prim |].
  unfold guarded_atan. rewrite (leb_number _ _ E0), E0.
  apply guard_range; prim.
Qed.

(** C2, as the code has it: the first reachable coordinate pair decides.
    When it exceeds neither bound (or there is no pair), the collection is
    returned unchanged, whatever the later pairs are. When it exceeds a
    bound, every reachable pair [(x, y)] is replaced by
    [toWgs84Coordinate] of it; the new longitude is within [-180, 180]
    when [x] is within the extent [20037508.34] of the projected plane, and
    on a host that keeps [atan(exp u)] between 0 and [Math.PI / 2] the new
    latitude is within [-90, 90] for every number [y]; so a collection
    whose pairs are all within the extent comes out with all its pairs
    within the geographic bounds. *)
Theorem reproject_bounds (host : MathHost) (fc : FeatureCollection) :
  (reprojectFeatureCollectionIfNeeded host fc = fc
   /\ match coordinatePairs fc with
      | [] => True
      | p :: _ => exceedsBounds p = false
      end)
  \/ (exists p rest, coordinatePairs fc = p :: rest
      /\ exceedsBounds p = true
      /\ coordinatePairs (reprojectFeatureCollectionIfNeeded host fc)
         = List.map (wgs84Pair host) (coordinatePairs fc)
      /\ (forall q, (Math_abs (fst q) <=? 20037508.34)%float = true ->
                    (Math_abs (fst (wgs84Pair host q)) <=? 180)%float = true)
      /\ (hostInRange host ->
          (forall q, withinExtent q = true ->
                     inGeographicBounds (wgs84Pair host q) = true)
          /\ (forallb withinExtent (coordinatePairs fc) = true ->
              forallb inGeographicBounds
                (coordinatePairs (reprojectFeatureCollectionIfNeeded host fc)) = true))).
Proof.
  destruct (coordinatePairs fc) as [|p ps] eqn:E.
  - left. split; [|exact I]. apply reproject_unchanged. rewrite E. exact I.
  - destruct (exceedsBounds p) eqn:X.
    + right. exists p, ps. split; [reflexivity|]. split; [exact X|].
      assert (M : coordinatePairs (reprojectFeatureCollectionIfNeeded host fc)
                  = List.map (wgs84Pair host) (p :: ps)).
      { rewrite <- E. rewrite <- coordinatePairs_reprojected. f_equal.
        unfold reprojectFeatureCollectionIfNeeded.
        unfold coordinatePairs in E. pose proof (firstCoord_head fc) as F.
        destruct (features fc) as [|f fs] eqn:Efs.
        * unfold allCoordinates in E. rewrite Efs in E. discriminate E.
        * rewrite <- Efs in *. rewrite F.
          destruct (allCoordinates fc) as [|c cs]; [discriminate E|].
          simpl in *. injection E as Ep _. rewrite needsReprojection_pair, Ep, X.
          reflexivity. }
      split; [exact M|]. split.
      * intros q Hq. rewrite wgs84Pair_eq. cbn [fst]. apply longitude_bound, Hq.
      * intros Hh. split; [intros q; apply wgs84Pair_bounds, Hh|].
        intros Hall. rewrite M. apply forallb_wgs84Pair; assumption.
    + left. split; [|reflexivity]. apply reproject_unchanged. rewrite E. exact X.
Qed.

(** The normaliser looks at the first pair only, on every host. *)
Lemma mixedCollection_unchanged (host : MathHost) :
  reprojectFeatureCollectionIfNeeded host mixedCollection = mixedCollection.
Proof. apply reproject_unchanged. vm_compute. reflexivity. Qed.

(** The collection returned for [mixedCollection] holds the pair
    [(-8926910.34, 2969596.28)], outside the geographic bounds. And the
    point of [farCollection], far beyond the extent of the projected plane, is
    transformed, to a longitude above 180. *)
Lemma reproject_bounds_counterexample :
  (coordinatePairs (reprojectFeatureCollectionIfNeeded exampleHost mixedCollection)
   = [(-80.1918, 25.7617); (-8926910.34, 2969596.28)]%float
   /\ forallb inGeographicBounds
        (coordinatePairs (reprojectFeatureCollectionIfNeeded exampleHost mixedCollection))
      = false)
  /\ (List.map exceedsBounds (coordinatePairs farCollection) = [true]
      /\ List.map (fun p => gt (fst p) 180)
           (coordinatePairs (reprojectFeatureCollectionIfNeeded exampleHost farCollection))
         = [true]
      /\ forallb inGeographicBounds
           (coordinatePairs (reprojectFeatureCollectionIfNeeded exampleHost farCollection))
         = false).
Proof. repeat split; vm_compute; reflexivity. Qed.

Lemma reproject_bounds_witness :
  hostInRange guardedHost
  /\ forallb withinExtent (coordinatePairs projectedCollection) = true
  /\ forallb inGeographicBounds
       (coordinatePairs (reprojectFeatureCollectionIfNeeded guardedHost projectedCollection))
     = true.
Proof.
  split; [exact guardedHost_inRange|]. split; [vm_compute; reflexivity|].
  destruct (reproject_bounds guardedHost projectedCollection)
    as [[_ H]|(p & rest & E & X & M & L & A)].
  - vm_compute in H. discriminate H.
  - apply A; [exact guardedHost_inRange | vm_compute; reflexivity].
Defined.

Lemma reproject_identity_within_bounds_witness :
  forallb inGeographicBounds (coordinatePairs miamiCollection) = true
  /\ reprojectFeatureCollectionIfNeeded exampleHost miamiCollection = miamiCollection.
Proof.
  split.
  - vm_compute. reflexivity.
  - apply (reproject_identity_within_bounds exampleHost miamiCollection).
    vm_compute. reflexivity.
Defined.

End Normaliser.

(** ** Side-table loader *)

Module SideTable.
Import JS App Notions Examples Rounding.

Lemma loadRow_unfold (geoIdIndex pred3PEIndex : Z) (m : gmap string float) (line : string) :
  loadRow geoIdIndex pred3PEIndex m line =
  if nonblank line && longEnough geoIdIndex pred3PEIndex line
     && truthy_string (rowIdentifier geoIdIndex line)
     && negb (isNaN (rowValue pred3PEIndex line))
  then assign m (normalizedKey (default EmptyString (rowIdentifier geoIdIndex line)))
         (rowValue pred3PEIndex line)
  else m.
Proof.
  unfold loadRow, longEnough, rowIdentifier, rowValue, normalizedKey.
  destruct (nonblank line); [|reflexivity].
  destruct (_ <? _); [|reflexivity].
  reflexivity.
Qed.

Lemma truthy_string_Some (x : option string) :
  truthy_string x = true <-> exists g, x = Some g /\ g <> EmptyString.
Proof.
  destruct x as [g|]; simpl.
  - destruct (String.eqb_spec g ""); simpl; split.
    + discriminate.
    + intros (g' & E & N). injection E as <-. contradiction.
    + intros _. exists g. split; [reflexivity | assumption].
    + reflexivity.
  - split; [discriminate | intros (g & E & _); discriminate].
Qed.

(** *** Blank and short rows fail the guard of the loop by themselves *)

Lemma append_empty_r (s : string) : (s ++ EmptyString)%string = s.
Proof.
  induction s as [|c s IH]; [reflexivity|].
  change (String c (s ++ EmptyString)%string = String c s). rewrite IH. reflexivity.
Qed.

Lemma append_char_assoc (s : string) (c : ascii) (r : string) :
  ((s ++ String c EmptyString) ++ r)%string = (s ++ String c r)%string.
Proof.
  induction s as [|d s IH]; [reflexivity|].
  change (String d ((s ++ String c EmptyString) ++ r)%string = String d (s ++ String c r)%string).
  rewrite IH. reflexivity.
Qed.

Lemma trimStart_empty (s : string) : trimStart s = EmptyString <-> all_space s = true.
Proof.
  induction s as [|c s IH]; simpl; [split; reflexivity|].
  destruct (is_space c); simpl; [exact IH | split; discriminate].
Qed.

Lemma trimEnd_empty (s : string) : trimEnd s = EmptyString -> s = EmptyString \/ exists c r, s = String c r /\ is_space c = true.
Proof.
  destruct s as [|c r]; [left; reflexivity|]. simpl. intros H. right. exists c, r.
  split; [reflexivity|]. destruct (trimEnd r); [|discriminate H].
  destruct (is_space c); [reflexivity | discriminate H].
Qed.

Lemma trim_empty (s : string) : trim s = EmptyString <-> all_space s = true.
Proof.
  unfold trim. split.
  - intros H. apply trimStart_empty.
    destruct (trimEnd_empty _ H) as [E | (c & r & E & Hc)]; [exact E|].
    exfalso. clear H. induction s as [|d s IH]; simpl in E; [discriminate E|].
    destruct (is_space d) eqn:D; [exact (IH E)|].
    injection E as -> _. rewrite D in Hc. discriminate Hc.
  - intros H. apply trimStart_empty in H. rewrite H. reflexivity.
Qed.

Lemma space_is_no_delimiter (c : ascii) :
  is_space c = true -> Ascii.eqb c quote = false /\ Ascii.eqb c comma = false.
Proof.
  intros H. split.
  - destruct (Ascii.eqb_spec c quote) as [->|_]; [discriminate H | reflexivity].
  - destruct (Ascii.eqb_spec c comma) as [->|_]; [discriminate H | reflexivity].
Qed.

Lemma parseCSVLine_loop_all_space (line : string) :
  all_space line = true ->
  forall result current inQuotes,
    parseCSVLine_loop line result current inQuotes
    = result ++ [trim (current ++ line)%string].
Proof.
  induction line as [|c line IH]; simpl; intros H result current inQuotes.
  - rewrite append_empty_r. reflexivity.
  - apply andb_prop in H as [Hc Hl].
    destruct (space_is_no_delimiter c Hc) as [-> ->]. simpl.
    rewrite (IH Hl), append_char_assoc. reflexivity.
Qed.

(** A blank line has one empty field. *)
Lemma parseCSVLine_blank (line : string) :
  nonblank line = false -> parseCSVLine line = [EmptyString].
Proof.
  unfold nonblank. intros H. apply negb_false_iff, String.eqb_eq in H.
  unfold parseCSVLine. rewrite parseCSVLine_loop_all_space by (apply trim_empty, H).
  change (EmptyString ++ line)%string with line. rewrite H. reflexivity.
Qed.

Lemma at_index_Some (l : list string) (i : Z) (x : string) :
  at_index l i = Some x -> 0 <= i < Z.of_nat (length l).
Proof.
  unfold at_index. destruct (Z.ltb_spec i 0) as [|Hi]; [discriminate|]. intros H.
  assert (Hlt : (Z.to_nat i < length l)%nat) by (apply nth_error_Some; congruence).
  lia.
Qed.

Lemma rowIdentifier_blank (geoIdIndex : Z) (line : string) :
  nonblank line = false -> truthy_string (rowIdentifier geoIdIndex line) = false.
Proof.
  intros H. unfold rowIdentifier. rewrite (parseCSVLine_blank _ H).
  unfold at_index. destruct (geoIdIndex <? 0); [reflexivity|].
  destruct (Z.to_nat geoIdIndex) as [|[|n]]; reflexivity.
Qed.

Lemma rowIdentifier_in_range (geoIdIndex : Z) (line : string) :
  truthy_string (rowIdentifier geoIdIndex line) = true ->
  geoIdIndex < Z.of_nat (length (parseCSVLine line)).
Proof.
  unfold rowIdentifier. intros H.
  destruct (at_index (parseCSVLine line) geoIdIndex) as [x|] eqn:E; [|discriminate H].
  apply at_index_Some in E. lia.
Qed.

Lemma rowValue_in_range (pred3PEIndex : Z) (line : string) :
  isNaN (rowValue pred3PEIndex line) = false ->
  pred3PEIndex < Z.of_nat (length (parseCSVLine line)).
Proof.
  unfold rowValue. intros H.
  destruct (at_index (parseCSVLine line) pred3PEIndex) as [x|] eqn:E.
  - apply at_index_Some in E. lia.
  - simpl in H. vm_compute in H. discriminate H.
Qed.

(** The guard on the identifier and on the value decides alone: a blank row
    and a row with too few fields fail it. *)
Lemma loadRow_guard (geoIdIndex pred3PEIndex : Z) (m : gmap string float) (line : string) :
  loadRow geoIdIndex pred3PEIndex m line =
  if truthy_string (rowIdentifier geoIdIndex line)
     && negb (isNaN (rowValue pred3PEIndex line))
  then assign m (normalizedKey (default EmptyString (rowIdentifier geoIdIndex line)))
         (rowValue pred3PEIndex line)
  else m.
Proof.
  rewrite loadRow_unfold.
  destruct (truthy_string _) eqn:T; [|rewrite andb_false_r; reflexivity].
  destruct (isNaN _) eqn:V; [rewrite andb_false_r; reflexivity|].
  destruct (nonblank line) eqn:B;
    [|rewrite (rowIdentifier_blank _ _ B) in T; discriminate T].
  pose proof (rowIdentifier_in_range _ _ T) as Hg.
  pose proof (rowValue_in_range _ _ V) as Hv.
  unfold longEnough. destruct (Z.ltb_spec (Z.max geoIdIndex pred3PEIndex)
                                 (Z.of_nat (length (parseCSVLine line)))); [reflexivity | lia].
Qed.



(** The same rows through the whole loader. *)
Lemma loadPred3PE_empty_key_and_infinity :
  loadPred3PE ("GEO_ID,PRED3_PE" ++ nl ++ "1400000US,1" ++ nl
               ++ "1400000US12086000107,Infinity")
  = Some (<["12086000107" := infinity]> {[ EmptyString := 1%float ]}).
Proof. vm_compute. reflexivity. Qed.

(** *** Values that are not numeric *)

(** A row whose value does not start with a number is skipped. *)
Lemma loadRow_skips_non_numeric (geoIdIndex pred3PEIndex : Z) (m : gmap string float)
    (line : string) :
  isNaN (rowValue pred3PEIndex line) = true ->
  loadRow geoIdIndex pred3PEIndex m line = m.
Proof.
  intros H. rewrite loadRow_unfold, H. simpl. rewrite andb_false_r. reflexivity.
Qed.

Lemma round_decimal_number (neg : bool) (m e : Z) : isNaN (round_decimal neg m e) = false.
Proof.
  unfold round_decimal, isNaN.
  destruct (m =? 0); [destruct neg; reflexivity|].
  destruct (400 <? e); [destruct neg; reflexivity|].
  destruct (e + Z.log2 m <? -1200); [destruct neg; reflexivity|].
  destruct (0 <=? e); apply SF2Prim_not_nan, binary_normalize_not_nan.
Qed.

Lemma DecLit_value_number (d : DecLit) : isNaN (DecLit_value d) = false.
Proof.
  destruct d as [neg|neg m e]; [destruct neg; reflexivity | apply round_decimal_number].
Qed.





(** Every entry of the loaded map comes from a row below the header whose
    identifier field is non-empty and whose value is not NaN. *)
Lemma fold_loadRow_entries (geoIdIndex pred3PEIndex : Z) (rows : list string) :
  forall (m : gmap string float) (k : string) (v : float),
    fold_left (loadRow geoIdIndex pred3PEIndex) rows m !! k = Some v ->
    m !! k = Some v
    \/ exists line g,
         In line rows
         /\ rowIdentifier geoIdIndex line = Some g /\ g <> EmptyString
         /\ k = normalizedKey g
         /\ v = rowValue pred3PEIndex line /\ isNaN v = false.
Proof.
  induction rows as [|line rows IH]; intros m k v H; simpl in H; [left; exact H|].
  apply IH in H as [H | (l & g & Hin & Hrest)].
  - rewrite loadRow_unfold in H.
    destruct (_ && _) eqn:C; [|left; exact H].
    apply andb_prop in C as [C Hnan]. apply andb_prop in C as [_ T].
    apply truthy_string_Some in T as (g & E & N). rewrite E in H. simpl in H.
    unfold assign in H. destruct (String.eqb _ "__proto__"); [left; exact H|].
    destruct (decide (normalizedKey g = k)) as [<-|Hne].
    + rewrite lookup_insert_eq in H. injection H as <-.
      right. exists line, g. apply negb_true_iff in Hnan.
      repeat split; try assumption; try reflexivity. left. reflexivity.
    + rewrite lookup_insert_ne in H by exact Hne. left. exact H.
  - right. exists l, g. split; [right; exact Hin | exact Hrest].
Qed.

Lemma loader_entries_come_from_rows (header : string) (rows : list string)
    (m : gmap string float) (k : string) (v : float) :
  loadPred3PELines (header :: rows) = Some m ->
  m !! k = Some v ->
  exists line g,
    In line rows
    /\ rowIdentifier (indexOf (parseCSVLine header) "GEO_ID") line = Some g
    /\ g <> EmptyString
    /\ k = normalizedKey g
    /\ v = rowValue (indexOf (parseCSVLine header) "PRED3_PE") line
    /\ isNaN v = false.
Proof.
  intros Hload Hk. simpl in Hload. injection Hload as <-.
  apply fold_loadRow_entries in Hk as [Hk|Hk]; [|exact Hk].
  rewrite lookup_empty in Hk. discriminate Hk.
Qed.

(** *** A header without one of the columns *)

Lemma indexOf_absent (l : list string) (x : string) : ~ In x l -> indexOf l x = -1.
Proof.
  induction l as [|y r IH]; intros H; [reflexivity|]. simpl.
  destruct (String.eqb_spec y x) as [->|_]; [exfalso; apply H; left; reflexivity|].
  rewrite IH by (intros Hin; apply H; right; exact Hin). reflexivity.
Qed.

Lemma loadRow_without_identifier_column (pred3PEIndex : Z) (m : gmap string float)
    (line : string) :
  loadRow (-1) pred3PEIndex m line = m.
Proof.
  rewrite loadRow_unfold. unfold rowIdentifier, at_index. simpl.
  rewrite andb_false_r. reflexivity.
Qed.

Lemma loadRow_without_value_column (geoIdIndex : Z) (m : gmap string float)
    (line : string) :
  loadRow geoIdIndex (-1) m line = m.
Proof.
  apply loadRow_skips_non_numeric. unfold rowValue, at_index. simpl.
  vm_compute. reflexivity.
Qed.

Lemma fold_left_inert {A B : Type} (f : A -> B -> A) (l : list B) (a : A) :
  (forall x y, f x y = x) -> fold_left f l a = a.
Proof.
  intros H. induction l as [|y l IH]; [reflexivity|]. simpl. rewrite H. exact IH.
Qed.

(** C6: when the header row lacks the identifier column [GEO_ID] or the
    value column [PRED3_PE], the loader ends with the empty map whatever the
    rows below the header are; it neither raises nor records anything. *)
Theorem loader_inert_without_column (csvText header : string) (rows : list string) :
  csvLines csvText = header :: rows ->
  ~ In "GEO_ID" (parseCSVLine header) \/ ~ In "PRED3_PE" (parseCSVLine header) ->
  loadPred3PE csvText = Some ∅.
Proof.
  intros Hlines Habsent. unfold loadPred3PE. rewrite Hlines. simpl. f_equal.
  destruct Habsent as [H|H]; rewrite (indexOf_absent _ _ H); apply fold_left_inert; intros.
  - apply loadRow_without_identifier_column.
  - apply loadRow_without_value_column.
Qed.

Lemma loader_inert_without_column_witness :
  csvLines tractTable
  = ["TRACT,PRED3_PE"; "1400000US12086000107,3.14"; "1400000US12086000108,2.5"]
  /\ (~ In "GEO_ID" (parseCSVLine "TRACT,PRED3_PE")
      \/ ~ In "PRED3_PE" (parseCSVLine "TRACT,PRED3_PE"))
  /\ loadPred3PE tractTable = Some ∅.
Proof.
  assert (A : ~ In "GEO_ID" (parseCSVLine "TRACT,PRED3_PE")).
  { vm_compute. intros [H|[H|[]]]; discriminate H. }
  split; [vm_compute; reflexivity|]. split; [left; exact A|].
  apply (loader_inert_without_column tractTable "TRACT,PRED3_PE"
           ["1400000US12086000107,3.14"; "1400000US12086000108,2.5"]).
  - vm_compute. reflexivity.
  - left. exact A.
Defined.

End SideTable.

(** ** Feature classifier *)

Module Classifier.
Import JS App Notions Examples.

Lemma processedFeatures_lookup (pred3PEData : gmap string float)
    (fc : FeatureCollection) (i : nat) :
  processedFeatures pred3PEData fc !! i
  = processFeature pred3PEData i <$> features fc !! i.
Proof. apply list_lookup_imap. Qed.

(** C9: the identifier of a classified feature is the source's own id when
    that is neither null nor undefined; otherwise the GEOID property when
    that is neither null nor undefined; otherwise the position of the
    feature in the input. *)
Theorem processedFeatures_identifier (pred3PEData : gmap string float)
    (fc : FeatureCollection) (i : nat) (feature : Feature) :
  features fc !! i = Some feature ->
  exists feature',
    processedFeatures pred3PEData fc !! i = Some feature'
    /\ ((nullish (feature_id feature) = false
         /\ feature_id feature' = feature_id feature)
        \/ (nullish (feature_id feature) = true
            /\ nullish (sourceGeoid feature) = false
            /\ feature_id feature' = sourceGeoid feature)
        \/ (nullish (feature_id feature) = true
            /\ nullish (sourceGeoid feature) = true
            /\ feature_id feature' = Num (Num_of_nat i))).
Proof.
  intros H. exists (processFeature pred3PEData i feature). split.
  - rewrite processedFeatures_lookup, H. reflexivity.
  - unfold processFeature, sourceGeoid, sourceProperties, coalesce. simpl.
    destruct (nullish (feature_id feature)); [|left; split; reflexivity].
    right. destruct (nullish (get_property _ geoidKey));
      [right | left]; repeat split; reflexivity.
Qed.

Lemma threeTracts_identifiers :
  List.map feature_id (processedFeatures ∅ threeTracts)
  = [Num 7; Str "12086000108"; Num 2].
Proof. vm_compute. reflexivity. Qed.

Lemma processedFeatures_identifier_witness :
  features threeTracts !! 1%nat
  = Some (tract Undefined [(geoidKey, Str "12086000108"); (populationKey, Str "4,321")])
  /\ exists feature',
       processedFeatures ∅ threeTracts !! 1%nat = Some feature'
       /\ ((nullish Undefined = false /\ feature_id feature' = Undefined)
           \/ (nullish Undefined = true
               /\ nullish (Str "12086000108") = false
               /\ feature_id feature' = Str "12086000108")
           \/ (nullish Undefined = true
               /\ nullish (Str "12086000108") = true
               /\ feature_id feature' = Num (Num_of_nat 1))).
Proof.
  split; [reflexivity|].
  exact (processedFeatures_identifier ∅ threeTracts 1
           (tract Undefined [(geoidKey, Str "12086000108"); (populationKey, Str "4,321")])
           eq_refl).
Defined.



End Classifier.

(** ** Statistics and colour expressions *)

Module Statistics.
Import JS App Notions Examples.

Lemma evaluate_get (props : gmap string Scalar) (name : string) :
  evaluate props (JArr [str "get"; str name])
  = Some (match get_property props name with
          | Undefined => Null
          | v => v
          end).
Proof. reflexivity. Qed.

Lemma evaluate_typeof (props : gmap string Scalar) (a : Json) :
  evaluate props (JArr [str "typeof"; a])
  = option_map (fun v => Str (typeName v)) (evaluate props a).
Proof. reflexivity. Qed.

Lemma evaluate_equal (props : gmap string Scalar) (a b : Json) :
  evaluate props (JArr [str "=="; a; b])
  = match evaluate props a, evaluate props b with
    | Some x, Some y => Some (Bool (equalValues x y))
    | _, _ => None
    end.
Proof. reflexivity. Qed.

Lemma evaluate_case (props : gmap string Scalar) (test output fallback : Json) :
  evaluate props (JArr [str "case"; test; output; fallback])
  = match evaluate props test with
    | Some (Bool true) => evaluate props output
    | Some (Bool false) => evaluate props fallback
    | _ => None
    end.
Proof. reflexivity. Qed.

(** The test of the colour expressions yields a boolean on every feature:
    true exactly when [__pred3PE] holds a number. *)
Lemma evaluate_pred3PEIsNumber (props : gmap string Scalar) :
  evaluate props pred3PEIsNumber
  = Some (Bool (is_number (get_property props "__pred3PE"))).
Proof.
  unfold pred3PEIsNumber. rewrite evaluate_equal, evaluate_typeof, evaluate_get.
  destruct (get_property props "__pred3PE"); reflexivity.
Qed.

Lemma getRangeStats_empty :
  getRangeStats [] = {| stat_min := None; stat_mid := None; stat_max := None |}.
Proof. reflexivity. Qed.

(** C7: when no feature of the collection has a qualifying [__pred3PE]
    sample, the statistics of the field are [{min: null, mid: null, max:
    null}], and the colour expression built from them paints every feature
    with the fallback colour, whatever the feature holds in the field. *)
Theorem no_samples_fallback (processed : list Feature) :
  pred3PEValues processed = [] ->
  getRangeStats (pred3PEValues processed)
  = {| stat_min := None; stat_mid := None; stat_max := None |}
  /\ pred3PE (statsPayload processed)
     = {| stat_min := None; stat_mid := None; stat_max := None |}
  /\ forall feature : Feature,
       featureColor (buildPred3PEColorExpression (statsPayload processed)) feature
       = Some (Str fallbackColor).
Proof.
  intros H. unfold buildPred3PEColorExpression, statsPayload. simpl. rewrite H.
  split; [reflexivity|]. split; [reflexivity|].
  intros feature. unfold featureColor. simpl stat_min. simpl stat_max. cbv iota.
  rewrite evaluate_case, evaluate_pred3PEIsNumber.
  destruct (is_number _); reflexivity.
Qed.

Lemma no_samples_fallback_witness :
  pred3PEValues unjoinedTracts = []
  /\ getRangeStats (pred3PEValues unjoinedTracts)
     = {| stat_min := None; stat_mid := None; stat_max := None |}
  /\ pred3PE (statsPayload unjoinedTracts)
     = {| stat_min := None; stat_mid := None; stat_max := None |}
  /\ forall feature : Feature,
       featureColor (buildPred3PEColorExpression (statsPayload unjoinedTracts)) feature
       = Some (Str fallbackColor).
Proof.
  assert (E : pred3PEValues unjoinedTracts = []) by (vm_compute; reflexivity).
  split; [exact E|]. exact (no_samples_fallback unjoinedTracts E).
Defined.

End Statistics.

(** ** The order of binary64 numbers *)

Module FloatOrder.
Import Notions.

Lemma lexcmp_spec (p q : Z * Z * Z) :
  match lexcmp p q with
  | Lt => lexlt p q
  | Eq => p = q
  | Gt => lexlt q p
  end.
Proof.
  destruct p as [[a b] c], q as [[a' b'] c']. unfold lexcmp, lexlt.
  destruct (Z.compare_spec a a'); [|lia|lia].
  destruct (Z.compare_spec b b'); [|lia|lia].
  destruct (Z.compare_spec c c'); [congruence|lia|lia].
Qed.

Lemma SFcompare_rank (x y : spec_float) :
  SFcompare x y = match rank x, rank y with
                  | Some p, Some q => Some (lexcmp p q)
                  | _, _ => None
                  end.
Proof.
  destruct x as [sx|sx| |sx mx ex], y as [sy|sy| |sy my ey]; simpl;
    try reflexivity; try (destruct sx; reflexivity); try (destruct sy; reflexivity);
    try (destruct sx, sy; reflexivity).
  destruct sx, sy; simpl; try reflexivity.
  rewrite Z.compare_opp. rewrite (Z.compare_antisym ex ey).
  destruct (ex ?= ey)%Z; reflexivity.
Qed.

Lemma is_nan_frank (x : float) : PrimFloat.is_nan x = true <-> frank x = None.
Proof.
  unfold PrimFloat.is_nan, frank. rewrite FloatAxioms.eqb_spec. unfold SFeqb.
  rewrite SFcompare_rank. destruct (rank (Prim2SF x)) as [p|]; simpl.
  - pose proof (lexcmp_spec p p) as L. destruct (lexcmp p p); simpl.
    + split; discriminate.
    + exfalso. destruct p as [[a b] c]. simpl in L. lia.
    + exfalso. destruct p as [[a b] c]. simpl in L. lia.
  - split; reflexivity.
Qed.

Lemma not_nan_frank (x : float) :
  PrimFloat.is_nan x = false -> exists p, frank x = Some p.
Proof.
  intros H. destruct (frank x) as [p|] eqn:E; [eauto|].
  apply is_nan_frank in E. congruence.
Qed.

Lemma ltb_frank (x y : float) :
  (x <? y)%float = true <-> exists p q, frank x = Some p /\ frank y = Some q /\ lexlt p q.
Proof.
  rewrite ltb_spec. unfold SFltb, frank. rewrite SFcompare_rank.
  destruct (rank (Prim2SF x)) as [p|], (rank (Prim2SF y)) as [q|];
    try (split; [discriminate | intros (? & ? & ? & ? & _); discriminate]).
  pose proof (lexcmp_spec p q) as L. split.
  - intros H. exists p, q. destruct (lexcmp p q); try discriminate. auto.
  - intros (p' & q' & Ep & Eq' & Hlt). injection Ep as <-. injection Eq' as <-.
    destruct (lexcmp p q); [|reflexivity|]; exfalso;
      destruct p as [[a b] c], q as [[a' b'] c']; simpl in *.
    + injection L as -> -> ->. lia.
    + lia.
Qed.

Lemma leb_frank (x y : float) :
  (x <=? y)%float = true
  <-> exists p q, frank x = Some p /\ frank y = Some q /\ (lexlt p q \/ p = q).
Proof.
  rewrite leb_spec. unfold SFleb, frank. rewrite SFcompare_rank.
  destruct (rank (Prim2SF x)) as [p|], (rank (Prim2SF y)) as [q|];
    try (split; [discriminate | intros (? & ? & ? & ? & _); discriminate]).
  pose proof (lexcmp_spec p q) as L. split.
  - intros H. exists p, q. destruct (lexcmp p q); try discriminate; auto.
  - intros (p' & q' & Ep & Eq' & Hle). injection Ep as <-. injection Eq' as <-.
    destruct (lexcmp p q); [reflexivity|reflexivity|]. exfalso.
    destruct p as [[a b] c], q as [[a' b'] c']; simpl in *.
    destruct Hle as [Hlt|Heq]; [lia|]. injection Heq as -> -> ->. lia.
Qed.

Lemma leb_refl (x : float) : PrimFloat.is_nan x = false -> (x <=? x)%float = true.
Proof.
  intros H. destruct (not_nan_frank x H) as [p E].
  apply leb_frank. exists p, p. auto.
Qed.

Lemma ltb_leb (x y : float) : (x <? y)%float = true -> (x <=? y)%float = true.
Proof.
  intros H. apply ltb_frank in H as (p & q & Ep & Eq' & L).
  apply leb_frank. exists p, q. auto.
Qed.

Lemma lexlt_trans (p q r : Z * Z * Z) : lexlt p q -> lexlt q r -> lexlt p r.
Proof.
  destruct p as [[a b] c], q as [[a' b'] c'], r as [[a'' b''] c'']. simpl. lia.
Qed.

Lemma leb_trans (x y z : float) :
  (x <=? y)%float = true -> (y <=? z)%float = true -> (x <=? z)%float = true.
Proof.
  intros H1 H2. apply leb_frank in H1 as (p & q & Ep & Eq' & L1).
  apply leb_frank in H2 as (q' & r & Eq'' & Er & L2).
  rewrite Eq' in Eq''. injection Eq'' as <-.
  apply leb_frank. exists p, r. repeat split; try assumption.
  destruct L1 as [L1| ->]; [|exact L2].
  destruct L2 as [L2| <-]; [left; eapply lexlt_trans; eassumption | left; exact L1].
Qed.

Lemma ltb_leb_trans (x y z : float) :
  (x <? y)%float = true -> (y <=? z)%float = true -> (x <? z)%float = true.
Proof.
  intros H1 H2. apply ltb_frank in H1 as (p & q & Ep & Eq' & L1).
  apply leb_frank in H2 as (q' & r & Eq'' & Er & L2).
  rewrite Eq' in Eq''. injection Eq'' as <-.
  apply ltb_frank. exists p, r. repeat split; try assumption.
  destruct L2 as [L2| <-]; [eapply lexlt_trans; eassumption | exact L1].
Qed.

(** Two numbers that are not NaN compare one way or the other. *)
Lemma not_ltb_leb (x y : float) :
  PrimFloat.is_nan x = false -> PrimFloat.is_nan y = false ->
  (x <? y)%float = false -> (y <=? x)%float = true.
Proof.
  intros Hx Hy H. destruct (not_nan_frank x Hx) as [p Ep], (not_nan_frank y Hy) as [q Eq'].
  apply leb_frank. exists q, p. repeat split; try assumption.
  pose proof (lexcmp_spec p q) as L. destruct (lexcmp p q) eqn:C.
  - right. symmetry. exact L.
  - exfalso. assert (T : (x <? y)%float = true) by (apply ltb_frank; eauto). congruence.
  - left. exact L.
Qed.

Lemma leb_not_nan (x y : float) :
  (x <=? y)%float = true -> PrimFloat.is_nan x = false /\ PrimFloat.is_nan y = false.
Proof.
  intros H. apply leb_frank in H as (p & q & Ep & Eq' & _).
  split; apply not_true_iff_false; intros N; apply is_nan_frank in N; congruence.
Qed.

End FloatOrder.

(** ** Range statistics *)

Module RangeBounds.
Import JS App Notions Examples FloatOrder.

Lemma rank_range (x : spec_float) (a b c : Z) :
  rank x = Some (a, b, c) ->
  -2 <= a <= 2 /\ (a = 2 -> b = 0 /\ c = 0) /\ (a = -2 -> b = 0 /\ c = 0).
Proof.
  destruct x as [s|s| |s m e]; simpl; try discriminate;
    try destruct s; intros E; injection E as <- <- <-; lia.
Qed.

Lemma nothing_above_infinity (x : float) : (infinity <? x)%float = false.
Proof.
  apply not_true_iff_false. intros H.
  apply ltb_frank in H as (p & q & Ep & Eq' & L).
  vm_compute in Ep. injection Ep as <-.
  destruct q as [[a b] c]. apply rank_range in Eq'. simpl in L. lia.
Qed.

Lemma nothing_below_neg_infinity (x : float) : (x <? neg_infinity)%float = false.
Proof.
  apply not_true_iff_false. intros H.
  apply ltb_frank in H as (p & q & Ep & Eq' & L).
  vm_compute in Eq'. injection Eq' as <-.
  destruct p as [[a b] c]. apply rank_range in Ep. simpl in L. lia.
Qed.

Lemma Math_min2_choice (a b : float) :
  notNaN a = true -> notNaN b = true -> Math_min2 a b = a \/ Math_min2 a b = b.
Proof.
  unfold notNaN, Math_min2. intros Ha Hb.
  apply negb_true_iff in Ha, Hb. rewrite Ha, Hb. simpl.
  destruct (a <? b)%float; [left; reflexivity|].
  destruct (b <? a)%float; [right; reflexivity|].
  destruct (get_sign a); auto.
Qed.

Lemma Math_max2_choice (a b : float) :
  notNaN a = true -> notNaN b = true -> Math_max2 a b = a \/ Math_max2 a b = b.
Proof.
  unfold notNaN, Math_max2. intros Ha Hb.
  apply negb_true_iff in Ha, Hb. rewrite Ha, Hb. simpl.
  destruct (a <? b)%float; [right; reflexivity|].
  destruct (b <? a)%float; [left; reflexivity|].
  destruct (get_sign a); auto.
Qed.

Lemma Math_min2_below (a b : float) :
  notNaN a = true -> notNaN b = true ->
  (Math_min2 a b <=? a)%float = true /\ (Math_min2 a b <=? b)%float = true.
Proof.
  unfold notNaN, Math_min2. intros Ha Hb.
  apply negb_true_iff in Ha, Hb. rewrite Ha, Hb. simpl.
  destruct (a <? b)%float eqn:L1.
  { split; [apply leb_refl, Ha | apply ltb_leb, L1]. }
  destruct (b <? a)%float eqn:L2.
  { split; [apply ltb_leb, L2 | apply leb_refl, Hb]. }
  pose proof (not_ltb_leb a b Ha Hb L1) as Hba.
  pose proof (not_ltb_leb b a Hb Ha L2) as Hab.
  destruct (get_sign a); split; auto using leb_refl.
Qed.

Lemma Math_max2_above (a b : float) :
  notNaN a = true -> notNaN b = true ->
  (a <=? Math_max2 a b)%float = true /\ (b <=? Math_max2 a b)%float = true.
Proof.
  unfold notNaN, Math_max2. intros Ha Hb.
  apply negb_true_iff in Ha, Hb. rewrite Ha, Hb. simpl.
  destruct (a <? b)%float eqn:L1.
  { split; [apply ltb_leb, L1 | apply leb_refl, Hb]. }
  destruct (b <? a)%float eqn:L2.
  { split; [apply leb_refl, Ha | apply ltb_leb, L2]. }
  pose proof (not_ltb_leb a b Ha Hb L1) as Hba.
  pose proof (not_ltb_leb b a Hb Ha L2) as Hab.
  destruct (get_sign a); split; auto using leb_refl.
Qed.

Section Folds.
Variables (pick : float -> float -> float) (related : float -> float -> bool).
Hypothesis pick_choice : forall a b,
  notNaN a = true -> notNaN b = true -> pick a b = a \/ pick a b = b.
Hypothesis pick_related : forall a b,
  notNaN a = true -> notNaN b = true ->
  related (pick a b) a = true /\ related (pick a b) b = true.
Hypothesis related_trans : forall x y z,
  related x y = true -> related y z = true -> related x z = true.

Lemma pick_notNaN (a b : float) :
  notNaN a = true -> notNaN b = true -> notNaN (pick a b) = true.
Proof. intros Ha Hb. destruct (pick_choice a b Ha Hb) as [-> | ->]; assumption. Qed.

Lemma fold_pick_member (l : list float) :
  forall acc, notNaN acc = true -> forallb notNaN l = true ->
  In (fold_left pick l acc) (acc :: l).
Proof.
  induction l as [|v l IH]; intros acc Ha Hl; [left; reflexivity|].
  simpl in Hl. apply andb_prop in Hl as [Hv Hl]. simpl fold_left.
  destruct (IH (pick acc v) (pick_notNaN _ _ Ha Hv) Hl) as [E|I].
  - rewrite <- E. destruct (pick_choice acc v Ha Hv) as [-> | ->];
      [left; reflexivity | right; left; reflexivity].
  - right. right. exact I.
Qed.

Lemma fold_pick_related (l : list float) :
  forall acc, notNaN acc = true -> forallb notNaN l = true ->
  related (fold_left pick l acc) acc = true
  /\ forall v, In v l -> related (fold_left pick l acc) v = true.
Proof.
  induction l as [|v l IH]; intros acc Ha Hl.
  - split; [|intros v []]. simpl.
    destruct (pick_related acc acc Ha Ha) as [R _].
    destruct (pick_choice acc acc Ha Ha) as [E|E]; rewrite E in R; exact R.
  - simpl in Hl. apply andb_prop in Hl as [Hv Hl]. simpl fold_left.
    destruct (IH (pick acc v) (pick_notNaN _ _ Ha Hv) Hl) as [R1 R2].
    destruct (pick_related acc v Ha Hv) as [Pa Pv].
    split; [exact (related_trans _ _ _ R1 Pa)|].
    intros u [<-|Hu]; [exact (related_trans _ _ _ R1 Pv) | exact (R2 u Hu)].
Qed.
End Folds.

Lemma Math_min2_infinity (v : float) : notNaN v = true -> Math_min2 infinity v = v.
Proof.
  unfold notNaN, Math_min2. intros Hv. apply negb_true_iff in Hv. rewrite Hv.
  rewrite nothing_above_infinity. simpl.
  destruct (v <? infinity)%float; reflexivity.
Qed.

Lemma Math_max2_neg_infinity (v : float) : notNaN v = true -> Math_max2 neg_infinity v = v.
Proof.
  unfold notNaN, Math_max2. intros Hv. apply negb_true_iff in Hv. rewrite Hv.
  rewrite nothing_below_neg_infinity. simpl.
  destruct (neg_infinity <? v)%float; reflexivity.
Qed.

Lemma Math_min_bounds (v : float) (l : list float) :
  forallb notNaN (v :: l) = true ->
  In (Math_min (v :: l)) (v :: l)
  /\ forall u, In u (v :: l) -> (Math_min (v :: l) <=? u)%float = true.
Proof.
  intros H. pose proof H as H'. simpl in H'. apply andb_prop in H' as [Hv Hl].
  unfold Math_min. simpl fold_left. rewrite (Math_min2_infinity v Hv). split.
  - apply (fold_pick_member Math_min2 Math_min2_choice l v Hv Hl).
  - destruct (fold_pick_related Math_min2 PrimFloat.leb Math_min2_choice
                Math_min2_below leb_trans l v Hv Hl) as [R1 R2].
    intros u [<-|Hu]; [exact R1 | exact (R2 u Hu)].
Qed.

Lemma Math_max_bounds (v : float) (l : list float) :
  forallb notNaN (v :: l) = true ->
  In (Math_max (v :: l)) (v :: l)
  /\ forall u, In u (v :: l) -> (u <=? Math_max (v :: l))%float = true.
Proof.
  intros H. pose proof H as H'. simpl in H'. apply andb_prop in H' as [Hv Hl].
  unfold Math_max. simpl fold_left. rewrite (Math_max2_neg_infinity v Hv). split.
  - apply (fold_pick_member Math_max2 Math_max2_choice l v Hv Hl).
  - assert (T : forall x y z, geb x y = true -> geb y z = true -> geb x z = true).
    { unfold geb. intros x y z A B. exact (leb_trans _ _ _ B A). }
    destruct (fold_pick_related Math_max2 geb Math_max2_choice
                Math_max2_above T l v Hv Hl) as [R1 R2].
    intros u [<-|Hu]; [exact R1 | exact (R2 u Hu)].
Qed.

(** X1: on a non-empty list of samples without NaN, the minimum and the
    maximum of [getRangeStats] are samples of the list, and every sample
    lies between them. *)
Theorem getRangeStats_bounds (values : list float) :
  values <> [] -> forallb notNaN values = true ->
  exists lo mid hi,
    getRangeStats values = {| stat_min := Some lo; stat_mid := Some mid; stat_max := Some hi |}
    /\ In lo values /\ In hi values
    /\ forall v, In v values -> (lo <=? v)%float = true /\ (v <=? hi)%float = true.
Proof.
  intros Hne H. destruct values as [|v l]; [contradiction|].
  destruct (Math_min_bounds v l H) as [Imin Lmin].
  destruct (Math_max_bounds v l H) as [Imax Lmax].
  eexists _, _, _. split; [reflexivity|]. repeat split; auto.
Qed.

Lemma getRangeStats_bounds_witness :
  ([3; 1; 2]%float <> [] /\ forallb notNaN [3; 1; 2]%float = true)
  /\ exists lo mid hi,
       getRangeStats [3; 1; 2]%float
       = {| stat_min := Some lo; stat_mid := Some mid; stat_max := Some hi |}
       /\ In lo [3; 1; 2]%float /\ In hi [3; 1; 2]%float
       /\ forall v, In v [3; 1; 2]%float ->
                    (lo <=? v)%float = true /\ (v <=? hi)%float = true.
Proof.
  split; [split; [discriminate | reflexivity]|].
  apply (getRangeStats_bounds [3; 1; 2]%float); [discriminate | reflexivity].
Defined.

End RangeBounds.

(** ** The classifier and its statistics, further *)

Module ClassifierLaws.
Import JS App Notions Examples FloatOrder RangeBounds.

Lemma enrichment_population (pred3PEData : gmap string float) (i : nat) (feature : Feature) :
  enrichment "__population" (processFeature pred3PEData i feature)
  = parseNumericValue (get_property (sourceProperties feature) populationKey).
Proof.
  unfold enrichment, processFeature, get_property. simpl.
  rewrite lookup_insert_ne by discriminate. rewrite lookup_insert_eq. reflexivity.
Qed.

Lemma enrichment_riskRating (pred3PEData : gmap string float) (i : nat) (feature : Feature) :
  enrichment "__riskRating" (processFeature pred3PEData i feature)
  = or_else (get_property (sourceProperties feature) ratingKey) Null.
Proof.
  unfold enrichment, processFeature, get_property. simpl.
  rewrite lookup_insert_ne by discriminate. rewrite lookup_insert_ne by discriminate.
  rewrite lookup_insert_eq. reflexivity.
Qed.

Lemma enrichment_pred3PE (pred3PEData : gmap string float) (i : nat) (feature : Feature) :
  enrichment "__pred3PE" (processFeature pred3PEData i feature)
  = let pred3PE := if truthy (sourceGeoid feature)
                   then lookupPred3PE pred3PEData (sourceGeoid feature) else Null in
    if negb (nullish pred3PE) then pred3PE else Null.
Proof.
  unfold enrichment, processFeature, get_property. simpl.
  rewrite lookup_insert_eq. reflexivity.
Qed.

(** The source keys are not names of enrichment fields, so the classifier
    reads the same source values from its own output. *)
Lemma sourceProperties_processed (pred3PEData : gmap string float) (i : nat)
    (feature : Feature) (key : string) :
  key ∉ enrichmentNames ->
  get_property (sourceProperties (processFeature pred3PEData i feature)) key
  = get_property (sourceProperties feature) key.
Proof.
  intros Hk. unfold enrichmentNames in Hk.
  apply not_elem_of_union in Hk as [Hk C]. apply not_elem_of_union in Hk as [A B].
  rewrite not_elem_of_singleton in A, B, C.
  unfold get_property, sourceProperties, processFeature. simpl.
  rewrite !lookup_insert_ne by (apply not_eq_sym; assumption). reflexivity.
Qed.

Lemma sourceKeys_not_enrichment :
  (ratingKey ∉ enrichmentNames) /\ (populationKey ∉ enrichmentNames)
  /\ (geoidKey ∉ enrichmentNames).
Proof.
  unfold enrichmentNames.
  repeat split; rewrite !not_elem_of_union, !not_elem_of_singleton;
    repeat split; discriminate.
Qed.

(** X2: classifying a feature that the classifier has already produced gives
    the same feature back, whatever index it is given: identifiers and
    enrichment fields are stable under re-classification. *)
Theorem processFeature_idempotent (pred3PEData : gmap string float) (i j : nat)
    (feature : Feature) :
  processFeature pred3PEData j (processFeature pred3PEData i feature)
  = processFeature pred3PEData i feature.
Proof.
  destruct sourceKeys_not_enrichment as (Kr & Kp & Kg).
  pose proof (sourceProperties_processed pred3PEData i feature _ Kr) as Er.
  pose proof (sourceProperties_processed pred3PEData i feature _ Kp) as Ep.
  pose proof (sourceProperties_processed pred3PEData i feature _ Kg) as Eg.
  unfold processFeature at 1. unfold sourceProperties in Er, Ep, Eg.
  rewrite Er, Ep, Eg.
  unfold processFeature. simpl. f_equal.
  - unfold coalesce. destruct (nullish (feature_id feature)) eqn:N1; simpl.
    + destruct (nullish (get_property _ geoidKey)) eqn:N2; simpl; [reflexivity|].
      rewrite N2. reflexivity.
    + rewrite N1. reflexivity.
  - f_equal. apply map_eq. intros k.
    destruct (decide (k = "__pred3PE")) as [->|N3].
    { rewrite !lookup_insert_eq. reflexivity. }
    rewrite (lookup_insert_ne _ "__pred3PE" k) by (apply not_eq_sym; exact N3).
    rewrite (lookup_insert_ne _ "__pred3PE" k) by (apply not_eq_sym; exact N3).
    destruct (decide (k = "__population")) as [->|N2].
    { rewrite !lookup_insert_eq. reflexivity. }
    rewrite (lookup_insert_ne _ "__population" k) by (apply not_eq_sym; exact N2).
    rewrite (lookup_insert_ne _ "__population" k) by (apply not_eq_sym; exact N2).
    destruct (decide (k = "__riskRating")) as [->|N1].
    { rewrite !lookup_insert_eq. reflexivity. }
    rewrite (lookup_insert_ne _ "__riskRating" k) by (apply not_eq_sym; exact N1).
    rewrite (lookup_insert_ne _ "__riskRating" k) by (apply not_eq_sym; exact N1).
    rewrite (lookup_insert_ne _ "__pred3PE" k) by (apply not_eq_sym; exact N3).
    rewrite (lookup_insert_ne _ "__population" k) by (apply not_eq_sym; exact N2).
    rewrite (lookup_insert_ne _ "__riskRating" k) by (apply not_eq_sym; exact N1).
    reflexivity.
Qed.

(** X3: every classified feature has an identifier that is neither null nor
    undefined, and a [__population] that is null or a finite number. *)
Theorem processedFeatures_wellformed (pred3PEData : gmap string float)
    (fc : FeatureCollection) :
  List.Forall
    (fun feature' =>
       nullish (feature_id feature') = false
       /\ (enrichment "__population" feature' = Null
           \/ exists n, enrichment "__population" feature' = Num n
                        /\ isFiniteNum n = true))
    (processedFeatures pred3PEData fc).
Proof.
  apply List.Forall_forall. intros feature' Hin.
  apply list_elem_of_In, elem_of_lookup_imap in Hin as (i & feature & -> & _).
  split.
  - unfold processFeature, coalesce. simpl.
    destruct (nullish (feature_id feature)) eqn:N1; [|exact N1].
    destruct (nullish (get_property _ geoidKey)) eqn:N2; [reflexivity | exact N2].
  - rewrite enrichment_population. apply ValueParser.parseNumericValue_range.
Qed.

(** X4: a feature whose GEOID is a non-empty string with an entry in the
    side table gets that entry as its [__pred3PE]. *)
Theorem processFeature_joins (pred3PEData : gmap string float) (i : nat)
    (feature : Feature) (geoid : string) (value : float) :
  sourceGeoid feature = Str geoid -> geoid <> EmptyString ->
  pred3PEData !! geoid = Some value ->
  enrichment "__pred3PE" (processFeature pred3PEData i feature) = Num value.
Proof.
  intros Hg Hne Hv. rewrite enrichment_pred3PE, Hg. simpl.
  destruct (String.eqb_spec geoid ""); [contradiction|]. simpl.
  unfold lookupPred3PE. simpl. rewrite Hv. reflexivity.
Qed.

Lemma processFeature_joins_witness :
  (sourceGeoid (tract Undefined [(geoidKey, Str "12086000107")]) = Str "12086000107"
   /\ "12086000107" <> EmptyString
   /\ ({[ "12086000107" := 3.14%float ]} : gmap string float) !! "12086000107"
      = Some 3.14%float)
  /\ enrichment "__pred3PE"
       (processFeature {[ "12086000107" := 3.14%float ]} 0
          (tract Undefined [(geoidKey, Str "12086000107")]))
     = Num 3.14%float.
Proof.
  assert (A : sourceGeoid (tract Undefined [(geoidKey, Str "12086000107")])
              = Str "12086000107") by (vm_compute; reflexivity).
  assert (B : ({[ "12086000107" := 3.14%float ]} : gmap string float) !! "12086000107"
              = Some 3.14%float) by (vm_compute; reflexivity).
  split; [split; [exact A | split; [discriminate | exact B]]|].
  apply (processFeature_joins _ 0 _ "12086000107" 3.14%float A); [discriminate | exact B].
Defined.

(** *** Without a side table *)

Lemma definedFiniteNumbers_no_number (l : list Scalar) :
  List.Forall (fun v => is_number v = false) l -> definedFiniteNumbers l = [].
Proof.
  intros H. unfold definedFiniteNumbers, finiteNumbers.
  induction H as [|v l Hv _ IH]; [reflexivity|].
  destruct v; try discriminate Hv; exact IH.
Qed.

Lemma enrichment_pred3PE_unjoined (i : nat) (feature : Feature) :
  enrichment "__pred3PE" (processFeature ∅ i feature)
  = if truthy (sourceGeoid feature) && inherited (ToString (sourceGeoid feature))
    then Builtin (ToString (sourceGeoid feature))
    else Null.
Proof.
  rewrite enrichment_pred3PE. simpl.
  destruct (truthy (sourceGeoid feature)); [|reflexivity].
  unfold lookupPred3PE. rewrite lookup_empty.
  destruct (inherited _); reflexivity.
Qed.

Lemma pred3PEValues_unjoined (fc : FeatureCollection) :
  pred3PEValues (processedFeatures ∅ fc) = [].
Proof.
  unfold pred3PEValues. apply definedFiniteNumbers_no_number.
  apply List.Forall_forall. intros v Hv. apply in_map_iff in Hv as (f & <- & Hf).
  apply list_elem_of_In, elem_of_lookup_imap in Hf as (i & feature & -> & _).
  rewrite enrichment_pred3PE_unjoined. destruct (_ && _); reflexivity.
Qed.

(** X5: with an empty side table (the state after a failed or missing
    load) the [__pred3PE] of a classified feature is null, unless its GEOID
    is the name of a member of [Object.prototype], which it then gets; in
    no case is it a number, so the statistics count every feature as
    missing it, and the continuous colour expression paints every feature
    with the fallback colour. *)
Theorem classification_without_side_table (fc : FeatureCollection) :
  let processed := processedFeatures ∅ fc in
  (forall (i : nat) (feature : Feature),
     features fc !! i = Some feature ->
     exists feature',
       processed !! i = Some feature'
       /\ enrichment "__pred3PE" feature'
          = if truthy (sourceGeoid feature) && inherited (ToString (sourceGeoid feature))
            then Builtin (ToString (sourceGeoid feature))
            else Null)
  /\ List.Forall (fun feature' => is_number (enrichment "__pred3PE" feature') = false)
       processed
  /\ missingPred3PE (counts (statsPayload processed)) = length (features fc)
  /\ forall feature : Feature,
       featureColor (buildPred3PEColorExpression (statsPayload processed)) feature
       = Some (Str fallbackColor).
Proof.
  cbv zeta. split; [|split; [|split]].
  - intros i feature H. exists (processFeature ∅ i feature). split.
    + rewrite Classifier.processedFeatures_lookup, H. reflexivity.
    + apply enrichment_pred3PE_unjoined.
  - apply List.Forall_forall. intros f Hf.
    apply list_elem_of_In, elem_of_lookup_imap in Hf as (i & feature & -> & _).
    rewrite enrichment_pred3PE_unjoined. destruct (_ && _); reflexivity.
  - unfold statsPayload. simpl. rewrite pred3PEValues_unjoined. simpl.
    unfold processedFeatures. rewrite length_imap. lia.
  - intros feature. unfold buildPred3PEColorExpression, statsPayload. simpl.
    rewrite pred3PEValues_unjoined. simpl. unfold featureColor.
    rewrite Statistics.evaluate_case, Statistics.evaluate_pred3PEIsNumber.
    destruct (is_number _); reflexivity.
Qed.

(** *** Bounds of the population samples *)

Lemma finiteNumbers_member (l : list Scalar) (n : float) :
  In (Num n) l -> isFiniteNum n = true -> In n (finiteNumbers l).
Proof.
  intros Hin Hf. unfold finiteNumbers.
  apply list_elem_of_In, list_elem_of_omap. exists (Num n).
  split; [apply list_elem_of_In, Hin | rewrite Hf; reflexivity].
Qed.

Lemma finite_notNaN (n : float) : isFiniteNum n = true -> notNaN n = true.
Proof.
  unfold isFiniteNum, PrimFloat.is_finite, notNaN.
  destruct (PrimFloat.is_nan n); [discriminate | reflexivity].
Qed.

Lemma finiteNumbers_notNaN (l : list Scalar) : forallb notNaN (finiteNumbers l) = true.
Proof.
  apply forallb_forall. intros n Hn. unfold finiteNumbers in Hn.
  apply list_elem_of_In, list_elem_of_omap in Hn as (v & _ & Hv).
  destruct v as [| | |m| |]; try discriminate Hv.
  destruct (isFiniteNum m) eqn:F; [|discriminate Hv].
  injection Hv as <-. apply finite_notNaN, F.
Qed.

(** X7: the population statistics bound every sample: a classified feature
    whose [__population] is a finite number lies between the minimum and
    the maximum of the statistics, which are then not null. *)
Theorem population_stats_bound_samples (processed : list Feature) (feature : Feature)
    (n : float) :
  In feature processed ->
  enrichment "__population" feature = Num n -> isFiniteNum n = true ->
  exists lo mid hi,
    population (statsPayload processed)
    = {| stat_min := Some lo; stat_mid := Some mid; stat_max := Some hi |}
    /\ (lo <=? n)%float = true /\ (n <=? hi)%float = true.
Proof.
  intros Hin Hn Hf.
  assert (M : In n (populationValues processed)).
  { apply finiteNumbers_member; [|exact Hf]. rewrite <- Hn. apply in_map, Hin. }
  unfold statsPayload. simpl.
  assert (N : forallb notNaN (populationValues processed) = true)
    by apply finiteNumbers_notNaN.
  destruct (populationValues processed) as [|v l] eqn:E; [contradiction|].
  destruct (Math_min_bounds v l N) as [_ Lmin].
  destruct (Math_max_bounds v l N) as [_ Lmax].
  eexists _, _, _. split; [reflexivity|]. split; auto.
Qed.

Lemma population_stats_bound_samples_witness :
  (In countedTract [countedTract]
   /\ enrichment "__population" countedTract = Num 4321%float
   /\ isFiniteNum 4321%float = true)
  /\ exists lo mid hi,
       population (statsPayload [countedTract])
       = {| stat_min := Some lo; stat_mid := Some mid; stat_max := Some hi |}
       /\ (lo <=? 4321)%float = true /\ (4321 <=? hi)%float = true.
Proof.
  assert (B : enrichment "__population" countedTract = Num 4321%float)
    by (vm_compute; reflexivity).
  split.
  - split; [left; reflexivity | split; [exact B | reflexivity]].
  - apply (population_stats_bound_samples [countedTract] countedTract 4321%float);
      [left; reflexivity | exact B | reflexivity].
Defined.

End ClassifierLaws.

(** ** Colour expressions and the rating inventory *)

Module ColourLaws.
Import JS App Notions Examples.

Lemma evaluate_case_arm (props : gmap string Scalar) (test output next : Json)
    (rest : list Json) :
  evaluate props (JArr (str "case" :: test :: output :: next :: rest))
  = match evaluate props test with
    | Some (Bool true) => evaluate props output
    | Some (Bool false) => evaluate props (JArr (str "case" :: next :: rest))
    | _ => None
    end.
Proof. reflexivity. Qed.

Lemma evaluate_case_fallback (props : gmap string Scalar) (fallback : Json) :
  evaluate props (JArr [str "case"; fallback]) = evaluate props fallback.
Proof. reflexivity. Qed.

Lemma evaluate_rating_test (props : gmap string Scalar) (rating : string) :
  evaluate props (JArr [str "=="; JArr [str "get"; str "__riskRating"]; str rating])
  = Some (Bool (match get_property props "__riskRating" with
                | Str r => String.eqb r rating
                | _ => false
                end)).
Proof.
  rewrite Statistics.evaluate_equal, Statistics.evaluate_get.
  destruct (get_property props "__riskRating"); reflexivity.
Qed.

(** X8: the categorical expression paints a feature with the palette colour
    of its [__riskRating] when that is one of the five ratings, and with
    the fallback colour for every other value, null included. *)
Theorem riskRating_expression_colour (feature : Feature) :
  featureColor buildRiskRatingColorExpression feature
  = Some (Str (ratingColor (enrichment "__riskRating" feature))).
Proof.
  unfold featureColor, enrichment.
  set (props := default ∅ (properties feature)).
  change buildRiskRatingColorExpression with
    (JArr (str "case"
           :: JArr [str "=="; JArr [str "get"; str "__riskRating"]; str "Very Low"]
           :: str "#4CAF50"
           :: JArr [str "=="; JArr [str "get"; str "__riskRating"]; str "Relatively Low"]
           :: str "#8BC34A"
           :: JArr [str "=="; JArr [str "get"; str "__riskRating"]; str "Relatively Moderate"]
           :: str "#FFC107"
           :: JArr [str "=="; JArr [str "get"; str "__riskRating"]; str "Relatively High"]
           :: str "#FF6F00"
           :: JArr [str "=="; JArr [str "get"; str "__riskRating"]; str "Very High"]
           :: str "#B71C1C"
           :: [str "#9e9e9e"])).
  rewrite !evaluate_case_arm, !evaluate_rating_test, evaluate_case_fallback.
  unfold ratingColor.
  destruct (get_property props "__riskRating") as [| | | |r|]; try reflexivity.
  simpl List.find.
  destruct (String.eqb r "Very Low"); [reflexivity|].
  destruct (String.eqb r "Relatively Low"); [reflexivity|].
  destruct (String.eqb r "Relatively Moderate"); [reflexivity|].
  destruct (String.eqb r "Relatively High"); [reflexivity|].
  destruct (String.eqb r "Very High"); reflexivity.
Qed.

(** X9: whatever the statistics are, the continuous expression paints a
    feature whose [__pred3PE] is not a number (null after a failed join)
    with the fallback colour. *)
Theorem pred3PE_expression_not_a_number (stats : StatsPayload) (feature : Feature) :
  is_number (enrichment "__pred3PE" feature) = false ->
  featureColor (buildPred3PEColorExpression stats) feature = Some (Str fallbackColor).
Proof.
  intros H. unfold featureColor, enrichment in *. unfold buildPred3PEColorExpression.
  destruct (stat_min (pred3PE stats)) as [lo|], (stat_max (pred3PE stats)) as [hi|];
    try destruct (lo =? hi)%float;
    rewrite Statistics.evaluate_case, Statistics.evaluate_pred3PEIsNumber, H;
    reflexivity.
Qed.

Lemma pred3PE_expression_not_a_number_witness :
  is_number (enrichment "__pred3PE" countedTract) = false
  /\ featureColor
       (buildPred3PEColorExpression
          (statsPayload [processFeature {[ "12086000107" := 3.14%float ]} 0
                           (tract Undefined [(geoidKey, Str "12086000107")]);
                         processFeature {[ "12086000107" := 3.14%float ]} 1
                           (tract Undefined [(geoidKey, Str "12086000109")])]))
       countedTract
     = Some (Str fallbackColor).
Proof.
  assert (A : is_number (enrichment "__pred3PE" countedTract) = false)
    by (vm_compute; reflexivity).
  split; [exact A|].
  exact (pred3PE_expression_not_a_number _ countedTract A).
Defined.

(** X10: when the minimum and the maximum of the statistics are equal, the
    continuous expression is flat: every feature whose [__pred3PE] is a
    number is painted [#4CAF50]. *)
Theorem pred3PE_expression_flat (stats : StatsPayload) (lo hi : float) (feature : Feature) :
  stat_min (pred3PE stats) = Some lo -> stat_max (pred3PE stats) = Some hi ->
  (lo =? hi)%float = true ->
  is_number (enrichment "__pred3PE" feature) = true ->
  featureColor (buildPred3PEColorExpression stats) feature = Some (Str "#4CAF50").
Proof.
  intros Hlo Hhi Heq H. unfold featureColor, enrichment in *.
  unfold buildPred3PEColorExpression. rewrite Hlo, Hhi, Heq.
  rewrite Statistics.evaluate_case, Statistics.evaluate_pred3PEIsNumber, H. reflexivity.
Qed.

Lemma pred3PE_expression_flat_witness :
  (stat_min (pred3PE (statsPayload [joinedTract])) = Some 3.14%float
   /\ stat_max (pred3PE (statsPayload [joinedTract])) = Some 3.14%float
   /\ (3.14 =? 3.14)%float = true
   /\ is_number (enrichment "__pred3PE" joinedTract) = true)
  /\ featureColor (buildPred3PEColorExpression (statsPayload [joinedTract])) joinedTract
     = Some (Str "#4CAF50").
Proof.
  assert (A : stat_min (pred3PE (statsPayload [joinedTract])) = Some 3.14%float)
    by (vm_compute; reflexivity).
  assert (B : stat_max (pred3PE (statsPayload [joinedTract])) = Some 3.14%float)
    by (vm_compute; reflexivity).
  assert (C : is_number (enrichment "__pred3PE" joinedTract) = true)
    by (vm_compute; reflexivity).
  split; [repeat split; assumption|].
  exact (pred3PE_expression_flat _ 3.14%float 3.14%float joinedTract A B eq_refl C).
Defined.

(** *** The inventory of ratings *)

Lemma sameValueZero_refl (v : Scalar) : sameValueZero v v = true.
Proof.
  destruct v as [| |b|n|s|name]; simpl; try reflexivity.
  - destruct b; reflexivity.
  - unfold PrimFloat.is_nan. destruct (n =? n)%float; reflexivity.
  - apply String.eqb_refl.
  - apply String.eqb_refl.
Qed.

Lemma pairwiseDistinct_snoc (seen : list Scalar) (v : Scalar) :
  pairwiseDistinct (seen ++ [v])
  = pairwiseDistinct seen && negb (existsb (sameValueZero v) seen).
Proof.
  induction seen as [|x r IH]; [reflexivity|].
  simpl. rewrite IH, existsb_app. simpl. rewrite orb_false_r.
  destruct (existsb (fun y => sameValueZero y x) r), (sameValueZero v x),
    (pairwiseDistinct r), (existsb (sameValueZero v) r); reflexivity.
Qed.

Lemma unique_fold (values : list Scalar) :
  forall seen, pairwiseDistinct seen = true ->
  let result :=
    fold_left (fun seen v => if existsb (sameValueZero v) seen then seen else seen ++ [v])
              values seen in
  pairwiseDistinct result = true
  /\ (forall u, In u seen -> In u result)
  /\ (forall v, In v values -> existsb (sameValueZero v) result = true)
  /\ (forall u, In u result -> In u seen \/ In u values).
Proof.
  induction values as [|w values IH]; intros seen Hd; cbv zeta.
  - simpl. split; [exact Hd|]. split; [auto|]. split; [intros v []|auto].
  - simpl fold_left. destruct (existsb (sameValueZero w) seen) eqn:E.
    + destruct (IH seen Hd) as (D & P & C & S). split; [exact D|].
      split; [exact P|]. split.
      * intros v [<-|Hv]; [|apply C, Hv].
        apply existsb_exists in E as (x & Hx & Sx).
        apply existsb_exists. exists x. split; [apply P, Hx | exact Sx].
      * intros u Hu. destruct (S u Hu); auto. right. right. assumption.
    + assert (Hd' : pairwiseDistinct (seen ++ [w]) = true).
      { rewrite pairwiseDistinct_snoc, Hd, E. reflexivity. }
      destruct (IH (seen ++ [w]) Hd') as (D & P & C & S). split; [exact D|].
      split; [|split].
      * intros u Hu. apply P, in_or_app. left. exact Hu.
      * intros v [<-|Hv]; [|apply C, Hv].
        apply existsb_exists. exists w.
        split; [apply P, in_or_app; right; left; reflexivity | apply sameValueZero_refl].
      * intros u Hu. destruct (S u Hu) as [H1|H1].
        -- apply in_app_or in H1 as [H1|[<-|[]]]; [left; exact H1|].
           right. left. reflexivity.
        -- right. right. exact H1.
Qed.

(** X11: the rating inventory of the statistics lists every rating that
    occurs among the classified features, lists nothing else, and lists no
    value twice. *)
Theorem rating_inventory (processed : list Feature) :
  let inventory := ratings (risk (statsPayload processed)) in
  pairwiseDistinct inventory = true
  /\ (forall v, In v (riskRatings processed) ->
                existsb (sameValueZero v) inventory = true)
  /\ (forall u, In u inventory -> In u (riskRatings processed)).
Proof.
  cbv zeta. unfold statsPayload. simpl. unfold unique.
  destruct (unique_fold (riskRatings processed) [] eq_refl) as (D & _ & C & S).
  split; [exact D|]. split; [exact C|].
  intros u Hu. destruct (S u Hu) as [[]|H]. exact H.
Qed.

End ColourLaws.

(** ** The value parser, further *)

Module ParserLaws.
Import JS App Notions Examples.

(** X12: for every scalar, the value parser returns null or a finite
    number; it never returns NaN, an infinity or a value that is not a
    number. *)
Theorem parseNumericValue_null_or_finite (value : Scalar) :
  parseNumericValue value = Null
  \/ exists n, parseNumericValue value = Num n /\ isFiniteNum n = true.
Proof. apply ValueParser.parseNumericValue_range. Qed.

(** X13: parsing is idempotent: the parser returns its own results
    unchanged. *)
Theorem parseNumericValue_idempotent (value : Scalar) :
  parseNumericValue (parseNumericValue value) = parseNumericValue value.
Proof.
  destruct (ValueParser.parseNumericValue_range value) as [E | (n & E & F)]; rewrite E.
  - reflexivity.
  - apply ValueParser.parseNumericValue_finite, F.
Qed.

Lemma filter_chars_app (keep : ascii -> bool) (s t : string) :
  filter_chars keep (s ++ t)%string = (filter_chars keep s ++ filter_chars keep t)%string.
Proof.
  induction s as [|c s IH]; [reflexivity|].
  change (String c s ++ t)%string with (String c (s ++ t)%string). simpl.
  destruct (keep c); rewrite IH; reflexivity.
Qed.

(** X14: a character that is no digit, sign, decimal point or exponent
    letter does not matter to the parser, wherever it stands in a string:
    currency signs, thousands separators, percent signs and spaces are
    dropped before the number is read. *)
Theorem parseNumericValue_ignores_other_characters (before after : string) (c : ascii) :
  numeric_char c = false ->
  parseNumericValue (Str (before ++ String c after))
  = parseNumericValue (Str (before ++ after)).
Proof.
  intros H. unfold parseNumericValue. simpl.
  rewrite !filter_chars_app. simpl. rewrite H. reflexivity.
Qed.

Lemma parseNumericValue_ignores_other_characters_witness :
  numeric_char ","%char = false
  /\ parseNumericValue (Str ("1" ++ String ","%char "234"))
     = parseNumericValue (Str ("1" ++ "234")).
Proof.
  split; [reflexivity|].
  apply (parseNumericValue_ignores_other_characters "1" "234" ","%char). reflexivity.
Defined.

End ParserLaws.

(** ** The coordinate normaliser, further *)

Module NormaliserLaws.
Import JS App Notions Examples.

Lemma sameButCoordinates_refl (feature : Feature) : sameButCoordinates feature feature.
Proof.
  unfold sameButCoordinates. repeat split. destruct (geometry feature); [reflexivity | exact I].
Qed.

Lemma sameButCoordinates_reprojectFeature (host : MathHost) (feature : Feature) :
  sameButCoordinates feature (reprojectFeature host feature).
Proof.
  unfold sameButCoordinates, reprojectFeature.
  destruct (geometry feature) as [g|] eqn:G; simpl; rewrite ?G; repeat split.
Qed.

Lemma sameButCoordinates_map (host : MathHost) (l : list Feature) :
  List.Forall2 sameButCoordinates l (List.map (reprojectFeature host) l).
Proof.
  induction l as [|x l IH]; simpl; constructor;
    [apply sameButCoordinates_reprojectFeature | exact IH].
Qed.

(** X15: the normaliser changes nothing but coordinates: the collection it
    returns has the same members besides its features, the same number of
    features in the same order, and each feature keeps its id, its
    properties, its other members and the other members of its geometry; a
    feature without geometry stays without. *)
Theorem reproject_changes_coordinates_only (host : MathHost) (fc : FeatureCollection) :
  collection_rest (reprojectFeatureCollectionIfNeeded host fc) = collection_rest fc
  /\ List.Forall2 sameButCoordinates
       (features fc) (features (reprojectFeatureCollectionIfNeeded host fc)).
Proof.
  assert (R : List.Forall2 sameButCoordinates (features fc) (features fc)).
  { induction (features fc); constructor; [apply sameButCoordinates_refl | assumption]. }
  unfold reprojectFeatureCollectionIfNeeded.
  destruct (features fc) as [|f fs] eqn:E; [rewrite E; split; [reflexivity | constructor]|].
  destruct (firstCoord (f :: fs)); [|rewrite E; split; [reflexivity | exact R]].
  destruct (negb (needsReprojection j)); [rewrite E; split; [reflexivity | exact R]|].
  split; [reflexivity|]. apply sameButCoordinates_map.
Qed.

(** X16: the transformation keeps the number of coordinate pairs, and every
    array it produces in place of a pair has exactly two entries, a
    longitude and a latitude: a third component of the input (an elevation)
    is dropped. *)
Theorem transformToWgs84_pairs (host : MathHost) (coords : Json) :
  length (traverse (transformToWgs84 host coords)) = length (traverse coords)
  /\ List.Forall (fun coord => exists lon lat, coord = JArr [num lon; num lat])
       (traverse (transformToWgs84 host coords)).
Proof.
  rewrite Normaliser.traverse_transformToWgs84. split; [apply List.length_map|].
  apply List.Forall_forall. intros c Hc. apply in_map_iff in Hc as (c0 & <- & _).
  unfold toWgs84, toWgs84Coordinate. eexists _, _. reflexivity.
Qed.

End NormaliserLaws.

(** ** The line parser of the side table, further *)

Module CsvLaws.
Import JS App Notions Examples.

Lemma append_cons (c : ascii) (s t : string) :
  (String c s ++ t)%string = String c (s ++ t)%string.
Proof. reflexivity. Qed.

Lemma append_nil (t : string) : (EmptyString ++ t)%string = t.
Proof. reflexivity. Qed.

Lemma append_assoc (s t u : string) : ((s ++ t) ++ u)%string = (s ++ (t ++ u))%string.
Proof.
  induction s as [|c s IH]; [reflexivity|]. rewrite !append_cons, IH. reflexivity.
Qed.

Lemma has_char_app (c : ascii) (s t : string) :
  has_char c (s ++ t)%string = has_char c s || has_char c t.
Proof.
  induction s as [|d s IH]; [reflexivity|]. rewrite append_cons. simpl.
  rewrite IH, orb_assoc. reflexivity.
Qed.

(** *** Trimming *)

Lemma has_char_trimStart (c : ascii) (s : string) :
  has_char c (trimStart s) = true -> has_char c s = true.
Proof.
  induction s as [|d s IH]; simpl; [auto|].
  destruct (is_space d); [|auto]. intros H. rewrite (IH H). apply orb_true_r.
Qed.

Lemma has_char_trimEnd (c : ascii) (s : string) :
  has_char c (trimEnd s) = true -> has_char c s = true.
Proof.
  induction s as [|d s IH]; simpl; [auto|].
  destruct (trimEnd s) as [|e r] eqn:E.
  - destruct (is_space d); simpl; [discriminate|].
    rewrite orb_false_r. intros ->. reflexivity.
  - simpl. intros H. apply orb_prop in H as [->|H]; [reflexivity|].
    rewrite (IH H). apply orb_true_r.
Qed.

Lemma has_char_trim (c : ascii) (s : string) :
  has_char c s = false -> has_char c (trim s) = false.
Proof.
  intros H. apply not_true_iff_false. intros T.
  apply has_char_trimEnd, has_char_trimStart in T. congruence.
Qed.

Lemma trimEnd_idempotent (s : string) : trimEnd (trimEnd s) = trimEnd s.
Proof.
  induction s as [|c s IH]; [reflexivity|]. simpl.
  destruct (trimEnd s) as [|e r] eqn:E.
  - destruct (is_space c) eqn:C; [reflexivity|]. simpl. rewrite C. reflexivity.
  - simpl in *. rewrite IH. reflexivity.
Qed.

Lemma startsBlack_trimStart (s : string) : startsBlack (trimStart s) = true.
Proof.
  induction s as [|c s IH]; [reflexivity|]. simpl.
  destruct (is_space c) eqn:C; [exact IH|]. simpl. rewrite C. reflexivity.
Qed.

Lemma trimStart_startsBlack (s : string) : startsBlack s = true -> trimStart s = s.
Proof.
  destruct s as [|c s]; [reflexivity|]. simpl. intros H.
  apply negb_true_iff in H. rewrite H. reflexivity.
Qed.

Lemma startsBlack_trimEnd (s : string) : startsBlack s = true -> startsBlack (trimEnd s) = true.
Proof.
  destruct s as [|c s]; [reflexivity|]. simpl. intros H.
  apply negb_true_iff in H. rewrite H.
  destruct (trimEnd s); simpl; rewrite H; reflexivity.
Qed.

Lemma trim_idempotent (s : string) : trim (trim s) = trim s.
Proof.
  unfold trim.
  rewrite (trimStart_startsBlack (trimEnd (trimStart s)))
    by apply startsBlack_trimEnd, startsBlack_trimStart.
  apply trimEnd_idempotent.
Qed.

Lemma trimEnd_space (s : string) (c : ascii) :
  is_space c = true -> trimEnd (s ++ String c EmptyString) = trimEnd s.
Proof.
  intros C. induction s as [|d s IH].
  - simpl. rewrite C. reflexivity.
  - rewrite append_cons. simpl. rewrite IH. reflexivity.
Qed.

Lemma trimStart_space (s : string) (c : ascii) :
  is_space c = true ->
  trimStart (s ++ String c EmptyString)
  = if all_space s then EmptyString else (trimStart s ++ String c EmptyString)%string.
Proof.
  intros C. induction s as [|d s IH].
  - simpl. rewrite C. reflexivity.
  - rewrite append_cons. simpl. destruct (is_space d); simpl; [exact IH | reflexivity].
Qed.

Lemma trim_space (s : string) (c : ascii) :
  is_space c = true -> trim (s ++ String c EmptyString) = trim s.
Proof.
  intros C. unfold trim. rewrite (trimStart_space s c C).
  destruct (all_space s) eqn:A.
  - apply SideTable.trimStart_empty in A. rewrite A. reflexivity.
  - apply trimEnd_space, C.
Qed.

(** *** The loop on text without delimiters *)

(** Text without a quote is added to the current field when it holds no
    comma either, or when the loop is inside quotes. *)
Lemma loop_text (text : string) :
  has_char quote text = false ->
  forall rest result current inQuotes,
    inQuotes = true \/ has_char comma text = false ->
    parseCSVLine_loop (text ++ rest) result current inQuotes
    = parseCSVLine_loop rest result (current ++ text) inQuotes.
Proof.
  induction text as [|c text IH]; intros Hq rest result current inQuotes Hc.
  - rewrite append_nil, SideTable.append_empty_r. reflexivity.
  - simpl in Hq. apply orb_false_elim in Hq as [Hq1 Hq2].
    rewrite append_cons. simpl. rewrite Hq1.
    assert (E : Ascii.eqb c comma && negb inQuotes = false).
    { destruct Hc as [->|Hc]; [apply andb_false_r|].
      simpl in Hc. apply orb_false_elim in Hc as [-> _]. reflexivity. }
    rewrite E. rewrite IH; [|exact Hq2|].
    + rewrite SideTable.append_char_assoc. reflexivity.
    + destruct Hc as [Hc|Hc]; [left; exact Hc|].
      simpl in Hc. apply orb_false_elim in Hc as [_ Hc]. right. exact Hc.
Qed.

Lemma loop_result (line : string) :
  forall result current inQuotes,
    parseCSVLine_loop line result current inQuotes
    = result ++ parseCSVLine_loop line [] current inQuotes.
Proof.
  induction line as [|c line IH]; intros result current inQuotes; [reflexivity|].
  simpl. destruct (Ascii.eqb c quote); [apply IH|].
  destruct (Ascii.eqb c comma && negb inQuotes); [|apply IH].
  rewrite IH, (IH [trim current]), <- app_assoc. reflexivity.
Qed.

(** X17: a line is never parsed into no field at all, and every field comes
    out trimmed and without a quote character. *)
Theorem parseCSVLine_fields (line : string) :
  parseCSVLine line <> []
  /\ List.Forall (fun field => trim field = field /\ has_char quote field = false)
       (parseCSVLine line).
Proof.
  unfold parseCSVLine.
  assert (G : forall line result current inQuotes,
             List.Forall (fun field => trim field = field /\ has_char quote field = false)
               result ->
             has_char quote current = false ->
             parseCSVLine_loop line result current inQuotes <> []
             /\ List.Forall (fun field => trim field = field /\ has_char quote field = false)
                  (parseCSVLine_loop line result current inQuotes)).
  { clear line. induction line as [|c line IH]; intros result current inQuotes Hr Hc.
    - simpl. split; [destruct result; discriminate|].
      apply List.Forall_app. split; [exact Hr|]. constructor; [|constructor].
      split; [apply trim_idempotent | apply has_char_trim, Hc].
    - simpl. destruct (Ascii.eqb c quote) eqn:Q; [apply IH; assumption|].
      destruct (Ascii.eqb c comma && negb inQuotes).
      + apply IH; [|reflexivity]. apply List.Forall_app. split; [exact Hr|].
        constructor; [|constructor].
        split; [apply trim_idempotent | apply has_char_trim, Hc].
      + apply IH; [exact Hr|]. rewrite has_char_app, Hc. simpl. rewrite Q. reflexivity. }
  apply G; [constructor | reflexivity].
Qed.

Lemma plainField_spec (field : string) :
  plainField field = true ->
  has_char quote field = false /\ has_char comma field = false /\ trim field = field.
Proof.
  unfold plainField. intros H. apply andb_prop in H as [H T].
  apply andb_prop in H as [Q C]. apply negb_true_iff in Q, C.
  apply String.eqb_eq in T. auto.
Qed.

(** X18: writing fields and reading them back gives the same fields:
    joining with commas fields that hold no quote and no comma and are
    trimmed, and parsing the line, returns the list of fields. *)
Theorem parseCSVLine_joinFields (fields : list string) :
  fields <> [] -> forallb plainField fields = true ->
  parseCSVLine (joinFields fields) = fields.
Proof.
  intros Hne Hall. unfold parseCSVLine, joinFields.
  destruct fields as [|f fs]; [contradiction Hne; reflexivity|]. clear Hne.
  assert (G : forall result,
             parseCSVLine_loop (String.concat "," (f :: fs)) result EmptyString false
             = result ++ f :: fs).
  { revert f Hall. induction fs as [|g gs IH]; intros f Hall result.
    - simpl in *. rewrite andb_true_r in Hall.
      apply plainField_spec in Hall as (Q & C & T).
      rewrite <- (SideTable.append_empty_r f) at 1.
      rewrite (loop_text f Q) by (right; exact C). simpl.
      rewrite append_nil, T. reflexivity.
    - simpl in Hall. apply andb_prop in Hall as [Hf Hrest].
      apply plainField_spec in Hf as (Q & C & T).
      change (String.concat "," (f :: g :: gs))
        with (f ++ String comma (String.concat "," (g :: gs)))%string.
      rewrite (loop_text f Q) by (right; exact C). simpl.
      rewrite append_nil, T. rewrite (IH g Hrest). rewrite <- app_assoc. reflexivity. }
  apply (G []).
Qed.

Lemma parseCSVLine_joinFields_witness :
  (["12086000107"; "3.14"; "Miami"] <> [] /\ forallb plainField ["12086000107"; "3.14"; "Miami"] = true)
  /\ parseCSVLine (joinFields ["12086000107"; "3.14"; "Miami"])
     = ["12086000107"; "3.14"; "Miami"].
Proof.
  split; [split; [discriminate | vm_compute; reflexivity]|].
  apply (parseCSVLine_joinFields ["12086000107"; "3.14"; "Miami"]);
    [discriminate | vm_compute; reflexivity].
Defined.

(** X19: a quoted field is one field whatever commas it holds: a line that
    starts with a quote, text without a quote, a quote and a comma has that
    text, trimmed, as its first field, followed by the fields of the rest
    of the line. *)
Theorem parseCSVLine_quoted_field (text rest : string) :
  has_char quote text = false ->
  parseCSVLine (String quote (text ++ String quote (String comma rest)))
  = trim text :: parseCSVLine rest.
Proof.
  intros Q. unfold parseCSVLine. simpl.
  rewrite (loop_text text Q) by (left; reflexivity). simpl.
  rewrite append_nil, loop_result. reflexivity.
Qed.

Lemma parseCSVLine_quoted_field_witness :
  has_char quote "Miami, FL" = false
  /\ parseCSVLine (String quote ("Miami, FL" ++ String quote (String comma "42")))
     = trim "Miami, FL" :: parseCSVLine "42".
Proof.
  split; [reflexivity|].
  apply (parseCSVLine_quoted_field "Miami, FL" "42"). reflexivity.
Defined.

Lemma loop_trailing_space (line : string) (c : ascii) :
  is_space c = true ->
  forall result current inQuotes,
    parseCSVLine_loop (line ++ String c EmptyString) result current inQuotes
    = parseCSVLine_loop line result current inQuotes.
Proof.
  intros C. destruct (SideTable.space_is_no_delimiter c C) as [Q K].
  induction line as [|d line IH]; intros result current inQuotes.
  - rewrite append_nil. simpl. rewrite Q, K. simpl. rewrite (trim_space current c C).
    reflexivity.
  - rewrite append_cons. simpl. rewrite !IH. reflexivity.
Qed.

(** X20: white space at the end of a line, such as the carriage return of
    a Windows line ending, does not change the fields of the line. *)
Theorem parseCSVLine_trailing_space (line : string) (c : ascii) :
  is_space c = true ->
  parseCSVLine (line ++ String c EmptyString) = parseCSVLine line.
Proof. intros C. apply loop_trailing_space, C. Qed.

Lemma parseCSVLine_trailing_space_witness :
  is_space "013"%char = true
  /\ parseCSVLine ("1400000US12086000107,3.14" ++ String "013"%char EmptyString)
     = parseCSVLine "1400000US12086000107,3.14".
Proof.
  split; [reflexivity|].
  apply (parseCSVLine_trailing_space "1400000US12086000107,3.14" "013"%char). reflexivity.
Defined.

End CsvLaws.

(** ** The side-table loader, further *)

Module LoaderLaws.
Import JS App Notions Examples.

(** X21: every entry of a loaded table comes from a data row: its key is
    the identifier field of a row below the header, non-empty, without the
    prefix, and its value is the parsed value field of that row, which is
    not NaN. *)
Theorem loadPred3PE_entries_come_from_rows (csvText header : string)
    (rows : list string) (m : gmap string float) (k : string) (v : float) :
  csvLines csvText = header :: rows ->
  loadPred3PE csvText = Some m ->
  m !! k = Some v ->
  exists line g,
    In line rows
    /\ rowIdentifier (indexOf (parseCSVLine header) "GEO_ID") line = Some g
    /\ g <> EmptyString
    /\ k = normalizedKey g
    /\ v = rowValue (indexOf (parseCSVLine header) "PRED3_PE") line
    /\ isNaN v = false.
Proof.
  intros Hlines Hload Hk. unfold loadPred3PE in Hload. rewrite Hlines in Hload.
  exact (SideTable.loader_entries_come_from_rows header rows m k v Hload Hk).
Qed.

Lemma loadPred3PE_entries_come_from_rows_witness :
  (csvLines smallTable
   = ["GEO_ID,PRED3_PE"; "1400000US12086000107,3.14"; "1400000US12086000108,n/a"]
   /\ loadPred3PE smallTable = Some {[ "12086000107" := 3.14%float ]}
   /\ ({[ "12086000107" := 3.14%float ]} : gmap string float) !! "12086000107"
      = Some 3.14%float)
  /\ exists line g,
       In line ["1400000US12086000107,3.14"; "1400000US12086000108,n/a"]
       /\ rowIdentifier (indexOf (parseCSVLine "GEO_ID,PRED3_PE") "GEO_ID") line = Some g
       /\ g <> EmptyString
       /\ "12086000107" = normalizedKey g
       /\ 3.14%float = rowValue (indexOf (parseCSVLine "GEO_ID,PRED3_PE") "PRED3_PE") line
       /\ isNaN 3.14%float = false.
Proof.
  assert (A : csvLines smallTable
              = ["GEO_ID,PRED3_PE"; "1400000US12086000107,3.14"; "1400000US12086000108,n/a"])
    by (vm_compute; reflexivity).
  assert (B : loadPred3PE smallTable = Some {[ "12086000107" := 3.14%float ]})
    by (vm_compute; reflexivity).
  assert (C : ({[ "12086000107" := 3.14%float ]} : gmap string float) !! "12086000107"
              = Some 3.14%float) by (vm_compute; reflexivity).
  split; [repeat split; assumption|].
  exact (loadPred3PE_entries_come_from_rows smallTable _ _ _ _ _ A B C).
Defined.





Lemma loadRow_size (geoIdIndex pred3PEIndex : Z) (m : gmap string float) (line : string) :
  (size (loadRow geoIdIndex pred3PEIndex m line) <= S (size m))%nat.
Proof.
  rewrite SideTable.loadRow_guard. destruct (_ && _); [|lia].
  unfold assign. destruct (String.eqb _ "__proto__"); [lia|].
  match goal with |- context [<[?k := ?v]> m] => destruct (m !! k) eqn:E end.
  - rewrite map_size_insert_Some by eauto. lia.
  - rewrite map_size_insert_None by exact E. lia.
Qed.

Lemma fold_loadRow_size (geoIdIndex pred3PEIndex : Z) (rows : list string) :
  forall m, (size (fold_left (loadRow geoIdIndex pred3PEIndex) rows m)
             <= size m + length rows)%nat.
Proof.
  induction rows as [|line rows IH]; intros m; simpl; [lia|].
  specialize (IH (loadRow geoIdIndex pred3PEIndex m line)).
  pose proof (loadRow_size geoIdIndex pred3PEIndex m line). lia.
Qed.

(** X24: a loaded table has at most as many entries as the file has
    non-blank lines below the header. *)
Theorem loadPred3PE_size (csvText : string) (m : gmap string float) :
  loadPred3PE csvText = Some m ->
  (size m <= length (csvLines csvText) - 1)%nat.
Proof.
  unfold loadPred3PE. destruct (csvLines csvText) as [|header rows]; [discriminate|].
  simpl. intros E. injection E as <-.
  pose proof (fold_loadRow_size (indexOf (parseCSVLine header) "GEO_ID")
                (indexOf (parseCSVLine header) "PRED3_PE") rows ∅) as S.
  rewrite map_size_empty in S. lia.
Qed.

Lemma loadPred3PE_size_witness :
  loadPred3PE smallTable = Some {[ "12086000107" := 3.14%float ]}
  /\ (size ({[ "12086000107" := 3.14%float ]} : gmap string float)
      <= length (csvLines smallTable) - 1)%nat.
Proof.
  assert (B : loadPred3PE smallTable = Some {[ "12086000107" := 3.14%float ]})
    by (vm_compute; reflexivity).
  split; [exact B|]. exact (loadPred3PE_size smallTable _ B).
Defined.

End LoaderLaws.

(** ** Hover highlighting *)

Module HoverLaws.
Import JS App Notions Examples.

Section Invariant.
Context {Id : Type} `{Countable Id}.

Lemma clearHovered_dark (st : HoverState (Id := Id)) :
  onlyHoveredIsLit st -> forall id, clearHovered st !! id <> Some true.
Proof.
  intros Inv id. unfold clearHovered.
  destruct (hoveredCensusId st) as [h|] eqn:E.
  - destruct (decide (h = id)) as [->|N].
    + rewrite lookup_insert_eq. discriminate.
    + rewrite lookup_insert_ne by exact N. intros L.
      apply Inv in L. congruence.
  - intros L. apply Inv in L. congruence.
Qed.

Lemma handlePointer_invariant (st : HoverState (Id := Id)) (e : PointerEvent) :
  onlyHoveredIsLit st -> onlyHoveredIsLit (handlePointer st e).
Proof.
  intros Inv. destruct e as [[id|]|]; simpl; [|exact Inv|].
  - intros k. simpl. destruct (decide (id = k)) as [->|N]; [reflexivity|].
    rewrite lookup_insert_ne by exact N. intros L.
    exfalso. exact (clearHovered_dark st Inv k L).
  - intros k. simpl. intros L. exfalso. exact (clearHovered_dark st Inv k L).
Qed.

Lemma fold_handlePointer_invariant (events : list (PointerEvent (Id := Id))) :
  forall st, onlyHoveredIsLit st -> onlyHoveredIsLit (fold_left handlePointer events st).
Proof.
  induction events as [|e events IH]; intros st Inv; [exact Inv|].
  simpl. apply IH, handlePointer_invariant, Inv.
Qed.

(** X25: at most one tract is highlighted. After any sequence of hover and
    leave events from the initial state, a feature whose hover flag is set
    is the one recorded in [hoveredCensusIdRef]; a hover on a feature sets
    its flag; and right after a leave no feature has its flag set. *)
Theorem hover_highlights_one (events : list (PointerEvent (Id := Id))) :
  let st := fold_left handlePointer events initialHover in
  onlyHoveredIsLit st
  /\ (forall id, featureState (handleHover (Some id) st) !! id = Some true)
  /\ forall id, featureState (handleLeave st) !! id <> Some true.
Proof.
  cbv zeta.
  assert (Inv : onlyHoveredIsLit (fold_left handlePointer events initialHover)).
  { apply fold_handlePointer_invariant. intros id. simpl.
    rewrite lookup_empty. discriminate. }
  split; [exact Inv|]. split.
  - intros id. simpl. apply lookup_insert_eq.
  - intros id. simpl. apply clearHovered_dark, Inv.
Qed.
End Invariant.

End HoverLaws.

(** ** Project markers *)

Module MarkerLaws.
Import JS App Notions Examples FloatOrder.

Lemma getMarkerSize_string (s : string) :
  s <> EmptyString ->
  getMarkerSize (Str s)
  = Some (if gt (markerCost s) 50000000 then 15%float
          else if gt (markerCost s) 10000000 then 12%float else 8%float).
Proof.
  intros Hne. unfold getMarkerSize, markerCost. simpl.
  destruct (String.eqb_spec s ""); [contradiction|]. simpl.
  destruct (gt _ 50000000); [reflexivity|]. destruct (gt _ 10000000); reflexivity.
Qed.

Lemma markerCost_compared (s t : string) :
  (markerCost s <=? markerCost t)%float = true -> s <> EmptyString /\ t <> EmptyString.
Proof.
  intros H. apply leb_not_nan in H as [Hs Ht].
  split; intros ->; vm_compute in Hs, Ht; discriminate.
Qed.

(** X26: a costlier project never gets a smaller marker: for two cost
    strings whose parsed costs compare, the marker size of the smaller cost
    is at most the marker size of the larger one. *)
Theorem getMarkerSize_monotone (s t : string) :
  (markerCost s <=? markerCost t)%float = true ->
  exists a b,
    getMarkerSize (Str s) = Some a /\ getMarkerSize (Str t) = Some b
    /\ (a <=? b)%float = true.
Proof.
  intros H. destruct (markerCost_compared s t H) as [Hs Ht].
  rewrite (getMarkerSize_string s Hs), (getMarkerSize_string t Ht).
  eexists _, _. split; [reflexivity|]. split; [reflexivity|].
  unfold gt. destruct (50000000 <? markerCost s)%float eqn:A.
  - rewrite (ltb_leb_trans _ _ _ A H). reflexivity.
  - destruct (10000000 <? markerCost s)%float eqn:B.
    + rewrite (ltb_leb_trans _ _ _ B H).
      destruct (50000000 <? markerCost t)%float; reflexivity.
    + destruct (50000000 <? markerCost t)%float; [reflexivity|].
      destruct (10000000 <? markerCost t)%float; reflexivity.
Qed.

Lemma getMarkerSize_monotone_witness :
  (markerCost "$12,500,000" <=? markerCost "$75,000,000.00")%float = true
  /\ exists a b,
       getMarkerSize (Str "$12,500,000") = Some a
       /\ getMarkerSize (Str "$75,000,000.00") = Some b
       /\ (a <=? b)%float = true.
Proof.
  split; [vm_compute; reflexivity|].
  apply (getMarkerSize_monotone "$12,500,000" "$75,000,000.00"). vm_compute. reflexivity.
Defined.

(** X27: the marker size is 8, 12 or 15 whenever the function returns, and
    it is 8 for every falsy cost and for every cost string that does not
    start with a number once dollar signs and commas are removed; the
    function raises exactly on a truthy cost that is not a string. *)
Theorem getMarkerSize_values (cost : Scalar) :
  (forall size, getMarkerSize cost = Some size ->
                size = 8%float \/ size = 12%float \/ size = 15%float)
  /\ (truthy cost = false -> getMarkerSize cost = Some 8%float)
  /\ (forall s, cost = Str s -> isNaN (markerCost s) = true ->
                getMarkerSize cost = Some 8%float)
  /\ (getMarkerSize cost = None
      <-> truthy cost = true /\ forall s, cost <> Str s).
Proof.
  unfold getMarkerSize. split; [|split; [|split; [|split]]].
  - intros size. destruct (truthy cost); simpl.
    + destruct cost as [| | | |s|]; try discriminate.
      destruct (gt _ 50000000); [intros E; injection E as <-; auto|].
      destruct (gt _ 10000000); intros E; injection E as <-; auto.
    + intros E. injection E as <-. auto.
  - intros ->. reflexivity.
  - intros s -> N. destruct (truthy (Str s)); [|reflexivity]. simpl.
    fold (markerCost s). unfold gt, isNaN in *.
    assert (L : forall c, (c <? markerCost s)%float = false).
    { intros c. apply not_true_iff_false. intros T.
      apply ltb_leb, leb_not_nan in T as [_ T]. congruence. }
    rewrite !L. reflexivity.
  - destruct (truthy cost); simpl; [|discriminate].
    destruct cost as [| | | |s|]; intros E; try discriminate E;
      try (split; [reflexivity | intros s'; discriminate]).
    exfalso. destruct (gt _ 50000000); [discriminate E|].
    destruct (gt _ 10000000); discriminate E.
  - intros [T N]. rewrite T. simpl.
    destruct cost as [| | | |s|]; try reflexivity. exfalso. exact (N s eq_refl).
Qed.

End MarkerLaws.

(** ** Ray casting, further *)

Module RayCastingLaws.
Import JS App Notions Examples.

Section Walk.
Variables (lng lat : float).

Lemma walkEdges_flag (vertices : list (float * float)) :
  forall previous inside,
    walkEdges lng lat previous vertices inside
    = xorb inside (walkEdges lng lat previous vertices false).
Proof.
  induction vertices as [|v rest IH]; intros previous inside; cbn [walkEdges].
  - rewrite xorb_false_r. reflexivity.
  - rewrite IH, (IH v (if crossing lng lat v previous then negb false else false)).
    destruct (crossing lng lat v previous), inside,
      (walkEdges lng lat v rest false); reflexivity.
Qed.

Lemma last_cons {A : Type} (l : list A) :
  forall v d : A, List.last (v :: l) d = List.last l v.
Proof.
  induction l as [|w l IH]; intros v d; [reflexivity|].
  change (List.last (v :: w :: l) d) with (List.last (w :: l) d).
  rewrite !IH. reflexivity.
Qed.

Lemma walkEdges_snoc (vertices : list (float * float)) (x : float * float) :
  forall previous inside,
    walkEdges lng lat previous (vertices ++ [x]) inside
    = xorb (walkEdges lng lat previous vertices inside)
           (crossing lng lat x (List.last vertices previous)).
Proof.
  induction vertices as [|v rest IH]; intros previous inside.
  - simpl. destruct (crossing lng lat x previous), inside; reflexivity.
  - change ((v :: rest) ++ [x]) with (v :: (rest ++ [x])).
    cbn [walkEdges]. rewrite IH, last_cons. reflexivity.
Qed.

Lemma crossing_same (v : float * float) : crossing lng lat v v = false.
Proof. unfold crossing. destruct v as [x y]. rewrite xorb_nilpotent. reflexivity. Qed.

Lemma rayStep_crossing (coords : list (float * float)) (inside : bool) (i j : nat) :
  rayStep lng lat coords (inside, j) i
  = (if crossing lng lat (nth i coords (nan, nan)) (nth j coords (nan, nan))
     then negb inside else inside, i).
Proof.
  unfold rayStep, crossing.
  destruct (nth i coords (nan, nan)) as [xi yi], (nth j coords (nan, nan)) as [xj yj].
  reflexivity.
Qed.

(** The loop over the indices is the walk along the vertices. *)
Lemma loop_walkEdges (coords todo : list (float * float)) :
  forall done inside j,
    coords = done ++ todo ->
    fst (fold_left (rayStep lng lat coords) (seq (length done) (length todo)) (inside, j))
    = walkEdges lng lat (nth j coords (nan, nan)) todo inside.
Proof.
  induction todo as [|v rest IH]; intros done inside j E; [reflexivity|].
  cbn [length seq fold_left walkEdges]. rewrite rayStep_crossing.
  assert (Ev : nth (length done) coords (nan, nan) = v) by (rewrite E; apply nth_middle).
  rewrite Ev.
  specialize (IH (done ++ [v])
                (if crossing lng lat v (nth j coords (nan, nan)) then negb inside else inside)
                (length done)).
  rewrite length_app in IH. simpl in IH.
  replace (length done + 1)%nat with (S (length done)) in IH by lia.
  rewrite Ev in IH. apply IH. rewrite E, <- app_assoc. reflexivity.
Qed.

Lemma nth_last (v : float * float) (rest : list (float * float)) :
  nth (length rest) (v :: rest) (nan, nan) = List.last (v :: rest) (nan, nan).
Proof.
  revert v. induction rest as [|w rest IH]; intros v; [reflexivity|].
  change (nth (length rest) (w :: rest) (nan, nan) = List.last (w :: rest) (nan, nan)).
  apply IH.
Qed.

Lemma isPointInDistrict_walkEdges (districtCoords : list (float * float)) :
  isPointInDistrict (lng, lat) districtCoords
  = walkEdges lng lat (List.last districtCoords (nan, nan)) districtCoords false.
Proof.
  unfold isPointInDistrict.
  change (fst (fold_left (rayStep lng lat districtCoords)
                 (seq (length (@nil (float * float))) (length districtCoords))
                 (false, (length districtCoords - 1)%nat))
          = walkEdges lng lat (List.last districtCoords (nan, nan)) districtCoords false).
  rewrite (loop_walkEdges districtCoords districtCoords [] false _ eq_refl).
  destruct districtCoords as [|v rest]; [reflexivity|].
  cbn [length]. rewrite Nat.sub_1_r. cbn [Nat.pred]. rewrite nth_last. reflexivity.
Qed.
End Walk.

(** X28: a ring may be closed or not: repeating the first vertex at the end
    of the vertex list, as a GeoJSON ring does, does not change the answer
    of [isPointInDistrict] for any point. *)
Theorem isPointInDistrict_closed_ring (point first : float * float)
    (others : list (float * float)) :
  isPointInDistrict point (first :: others ++ [first])
  = isPointInDistrict point (first :: others).
Proof.
  destruct point as [lng lat]. rewrite !isPointInDistrict_walkEdges.
  change (first :: others ++ [first]) with ((first :: others) ++ [first]).
  rewrite List.last_last. change ((first :: others) ++ [first]) with (first :: (others ++ [first])).
  cbn [walkEdges]. rewrite crossing_same.
  rewrite walkEdges_snoc.
  rewrite (walkEdges_flag lng lat others first
             (if crossing lng lat first (List.last (first :: others) (nan, nan))
              then negb false else false)).
  rewrite last_cons.
  destruct (crossing lng lat first (List.last others first)),
    (walkEdges lng lat first others false); reflexivity.
Qed.

End RayCastingLaws.
